(** * Crypto portfolio tracker: the Binance aggregation and pricing client

    A shallow embedding of [BinanceManager] from [crypto_portfolio.py]
    (price resolver with its cache, spot wallet source, Simple Earn source
    with its two discovery strategies, and the portfolio aggregator),
    together with the properties of the specification that concern it.

    Python floats are IEEE 754 binary64 values: they are modelled by Rocq's
    primitive [float], whose operations are the same binary64 operations.
    Dictionaries keyed by strings are [gmap string _].  The remote exchange
    and the clock are an oracle ([World]) consulted through a state that
    counts the consultations and logs every network call. *)

From Stdlib Require Import ZArith List Ascii String Bool Lia Floats.
From stdpp Require Import gmap strings list.

Local Open Scope string_scope.
Local Open Scope list_scope.

(** * Part I: the model *)

(** ** Float comparisons

    Python's [<], [<=], [>], [>=] and [==] on floats are the IEEE
    comparisons; [x > y] is [y < x] and [x >= y] is [y <= x]. *)

Definition gtb (x y : float) : bool := PrimFloat.ltb y x.

Definition geb (x y : float) : bool := PrimFloat.leb y x.

(** ** Data model *)

(** One priced position: the dictionary built at every [append] of the
    source.  All eleven keys are always present and the numeric ones are
    floats, because the source builds every dictionary with the same literal
    (the [apr] of a spot holding is the integer 0, i.e. 0.0). *)
Record holding := mk_holding {
  asset : string;
  quantity : float;
  avg_price : float;
  current_price : float;
  current_value : float;
  total_invested : float;
  pnl_percentage : float;
  pnl_euro : float;
  source : string;
  type : string;
  apr : float
}.

(** The exceptions the source distinguishes: [except
    requests.exceptions.RequestException] catches the first only, [except
    Exception] catches both. *)
Inductive exn := RequestException | Exception.

Inductive result (A : Type) :=
| Ok (a : A)
| Raise (e : exn).
Arguments Ok {A} a.
Arguments Raise {A} e.

(** An entry of [account['balances']].  A field is [None] when reading it
    raises: the key is missing, or [float(...)] rejects the text. *)
Record balance := mk_balance {
  balance_asset : option string;
  balance_free : option float;
  balance_locked : option float
}.

(** An entry of [data['rows']] of a Simple Earn answer, read the same way;
    [pos_apr] is [float(pos.get('latestAnnualPercentageRate', 0))]. *)
Record position := mk_position {
  pos_asset : option string;
  pos_totalAmount : option float;
  pos_apr : option float
}.

(** What one attempt yields, from the signing of the query to the reading
    of the body:
    - [HttpRaises e]: [requests.get] raises [e]; a [RequestException] is a
      network failure (no connection, timeout), [Exception] is any other
      exception;
    - [HttpResponse status_code rows]: a response with that status whose
      body decodes to a mapping with the rows [rows] (no rows when the key
      is absent or the list is empty);
    - [HttpUnreadable status_code e]: a response with that status whose
      body cannot be read: [response.json()] raises
      [requests.exceptions.JSONDecodeError], which is a [RequestException],
      when the body is not JSON, and reading the rows raises another
      exception when the decoded value is not a mapping;
    - [SigningRaises]: the HMAC signature cannot be computed
      ([Config.BINANCE_SECRET_KEY] is not a string): an exception other
      than [RequestException], raised before anything is sent.
    The body is only read when the status is 200. *)
Inductive http_outcome :=
| HttpRaises (e : exn)
| HttpResponse (status_code : Z) (rows : list position)
| HttpUnreadable (status_code : Z) (e : exn)
| SigningRaises.

(** The environment.  Every consultation is numbered by the [tick] of the
    state, so an oracle may answer differently at each call.
    [get_symbol_ticker t symbol] is [float(ticker['price'])], [None] when
    the call or the conversion raises; [get_account t] is
    [account['balances']]; [requests_get t url asset] is what becomes of
    the attempt to GET [url], filtered to [asset] when given (the timestamp
    and the value of the HMAC signature only influence what the server
    answers). *)
Record World := mk_World {
  time_time : nat -> float;
  get_symbol_ticker : nat -> string -> option float;
  get_account : nat -> option (list balance);
  requests_get : nat -> string -> option string -> http_outcome
}.

(** Every network call is logged, in order; an [HttpCall] is a request
    that [requests.get] was called with. *)
Inductive event :=
| TickerCall (symbol : string)
| AccountCall
| HttpCall (url : string) (asset_param : option string) (outcome : http_outcome).

(** [self._price_cache] maps an asset to (price, time fetched); the
    attribute is created empty on first use. *)
Record state := mk_state {
  _price_cache : gmap string (float * float);
  tick : nat;
  log : list event
}.

Definition initial_state : state :=
  {| _price_cache := ∅; tick := 0; log := [] |}.

(** ** A state and exception monad

    [M Σ A] runs on a store [Σ] and returns a value or raises; the store
    survives an exception, as mutations do in Python. *)

Definition M (Σ A : Type) : Type := Σ -> result A * Σ.

Definition ret {Σ A} (a : A) : M Σ A := fun s => (Ok a, s).

Definition bind {Σ A B} (m : M Σ A) (k : A -> M Σ B) : M Σ B :=
  fun s => match m s with
           | (Ok a, s') => k a s'
           | (Raise e, s') => (Raise e, s')
           end.

Definition raise {Σ A} (e : exn) : M Σ A := fun s => (Raise e, s).

(** [try: m except Exception as e: h e] *)
Definition try_except {Σ A} (m : M Σ A) (h : exn -> M Σ A) : M Σ A :=
  fun s => match m s with
           | (Ok a, s') => (Ok a, s')
           | (Raise e, s') => h e s'
           end.

(** [try: m except requests.exceptions.RequestException: h] *)
Definition try_except_request {Σ A} (m : M Σ A) (h : M Σ A) : M Σ A :=
  try_except m (fun e => match e with
                         | RequestException => h
                         | Exception => raise e
                         end).

Declare Scope py_scope.
Delimit Scope py_scope with py.
Notation "'let*' x ':=' c 'in' k" := (bind c (fun x => k))
  (at level 10, x name, c at level 100, k at level 200) : py_scope.
Notation "c ';;;' k" := (bind c (fun _ => k))
  (at level 100, k at level 200, right associativity) : py_scope.

(** A subscript or conversion that raises when the field is unreadable. *)
Definition field {Σ A} (o : option A) : M Σ A :=
  match o with
  | Some a => ret a
  | None => raise Exception
  end.

(** A function-local list mutated in place sits next to the global state,
    so that what was appended before an exception is still there after. *)
Definition lift {L A} (m : M state A) : M (L * state) A :=
  fun ls => let (r, s') := m (snd ls) in (r, (fst ls, s')).

Definition get_local {L} : M (L * state) L :=
  fun ls => (Ok (fst ls), ls).

Definition append {A} (x : A) : M (list A * state) unit :=
  fun ls => (Ok tt, (fst ls ++ [x], snd ls)).

Definition extend {A} (xs : list A) : M (list A * state) unit :=
  fun ls => (Ok tt, (fst ls ++ xs, snd ls)).

Definition with_local {L A} (l0 : L) (m : M (L * state) A) : M state A :=
  fun s => let (r, ls) := m (l0, s) in (r, snd ls).

Fixpoint for_each {Σ A} (xs : list A) (body : A -> M Σ unit) : M Σ unit :=
  match xs with
  | [] => ret tt
  | x :: xs' => (body x ;;; for_each xs' body)%py
  end.

(** Python's truth value of a list. *)
Definition truthy {A} (l : list A) : bool :=
  match l with [] => false | _ => true end.

(** ** [str.title] on ASCII text *)

Definition is_upper (c : ascii) : bool :=
  Nat.leb 65 (nat_of_ascii c) && Nat.leb (nat_of_ascii c) 90.
Definition is_lower (c : ascii) : bool :=
  Nat.leb 97 (nat_of_ascii c) && Nat.leb (nat_of_ascii c) 122.
Definition to_lower (c : ascii) : ascii :=
  if is_upper c then ascii_of_nat (nat_of_ascii c + 32) else c.
Definition to_upper (c : ascii) : ascii :=
  if is_lower c then ascii_of_nat (nat_of_ascii c - 32) else c.

Fixpoint title_from (previous_is_cased : bool) (s : string) : string :=
  match s with
  | EmptyString => EmptyString
  | String c rest =>
      if is_lower c || is_upper c then
        String (if previous_is_cased then to_lower c else to_upper c)
               (title_from true rest)
      else String c (title_from false rest)
  end.

Definition title (s : string) : string := title_from false s.

(** ** The program *)

Definition FLEXIBLE_URL : string :=
  "https://api.binance.com/sapi/v1/simple-earn/flexible/position".
Definition LOCKED_URL : string :=
  "https://api.binance.com/sapi/v1/simple-earn/locked/position".

(** The [endpoints] list of both discovery functions. *)
Definition endpoints : list (string * string) :=
  [("FLEXIBLE", FLEXIBLE_URL); ("LOCKED", LOCKED_URL)].

Definition known_assets : list string :=
  ["ARB"; "BNB"; "BTC"; "C"; "ERA"; "ETH"; "HAEDAL"; "HOME"; "HUMA";
   "HYPER"; "OP"; "SOL"; "ONDO"; "TAO"].

Definition spot_holding (asset : string) (total current_price : float)
  : holding :=
  {| asset := asset;
     quantity := total;
     avg_price := 0;
     current_price := current_price;
     current_value := total * current_price;
     total_invested := 0;
     pnl_percentage := 0;
     pnl_euro := 0;
     source := "Spot";
     type := "Spot";
     apr := 0 |}.

Definition earn_holding (asset : string) (amount current_price : float)
    (product_type : string) (apr : float) : holding :=
  {| asset := asset;
     quantity := amount;
     avg_price := 0;
     current_price := current_price;
     current_value := amount * current_price;
     total_invested := 0;
     pnl_percentage := 0;
     pnl_euro := 0;
     source := "Simple Earn";
     type := title product_type;
     apr := apr |}.

Section Program.

Variable w : World.

Local Open Scope py_scope.

(** One consultation of the environment: the tick advances and the
    network calls made are appended to the log. *)
Definition consult (evs : list event) (s : state) : state :=
  {| _price_cache := _price_cache s;
     tick := S (tick s);
     log := log s ++ evs |}.

(** [time.time()] *)
Definition now : M state float :=
  fun s => (Ok (time_time w (tick s)), consult [] s).

(** [float(self.client.get_symbol_ticker(symbol=...)['price'])] *)
Definition symbol_ticker (symbol : string) : M state float :=
  fun s => (match get_symbol_ticker w (tick s) symbol with
            | Some price => Ok price
            | None => Raise Exception
            end, consult [TickerCall symbol] s).

(** [self.client.get_account()['balances']] *)
Definition account_balances : M state (list balance) :=
  fun s => (match get_account w (tick s) with
            | Some balances => Ok balances
            | None => Raise Exception
            end, consult [AccountCall] s).

(** One attempt: the signature, then [requests.get(url, headers=...,
    params=..., timeout=10)] and, when the status is 200,
    [response.json()] and the rows of [data].  When the signature raises
    nothing is sent: the environment is not consulted and no request is
    logged. *)
Definition http_get (url : string) (asset_param : option string)
  : M state (Z * list position) :=
  fun s => let outcome := requests_get w (tick s) url asset_param in
           let sent := consult [HttpCall url asset_param outcome] s in
           match outcome with
           | SigningRaises => (Raise Exception, s)
           | HttpRaises e => (Raise e, sent)
           | HttpResponse status_code rows => (Ok (status_code, rows), sent)
           | HttpUnreadable status_code e =>
               (if (status_code =? 200)%Z then Raise e
                else Ok (status_code, []), sent)
           end.

(** [self._price_cache] *)
Definition price_cache : M state (gmap string (float * float)) :=
  fun s => (Ok (_price_cache s), s).

(** [self._price_cache[asset] = (price, current_time)] *)
Definition cache_store (asset : string) (price current_time : float)
  : M state unit :=
  fun s => (Ok tt,
            {| _price_cache := <[asset := (price, current_time)]> (_price_cache s);
               tick := tick s;
               log := log s |}).

(** The part of [_get_current_price] after the cache lookup: direct
    USDT pair, then the two hops through BTC, then 0.0. *)
Definition fetch_price (asset : string) (current_time : float)
  : M state float :=
  let* found :=
    try_except
      (let* price := symbol_ticker (asset ++ "USDT")%string in
       ret (Some price))
      (fun _ =>
         try_except
           (let* btc_price := symbol_ticker (asset ++ "BTC")%string in
            let* btc_usdt := symbol_ticker "BTCUSDT" in
            ret (Some (btc_price * btc_usdt)%float))
           (fun _ => ret None)) in
  match found with
  | None => ret 0%float
  | Some price => cache_store asset price current_time ;;; ret price
  end.

Definition _get_current_price (asset : string) : M state float :=
  try_except
    (let* current_time := now in
     let* cache := price_cache in
     match cache !! asset with
     | Some (cached_price, cached_time) =>
         if (current_time - cached_time <? 300)%float
         then ret cached_price
         else fetch_price asset current_time
     | None => fetch_price asset current_time
     end)
    (fun _ => ret 0%float).

(** Body of [for balance in balances] in [_get_spot_data]; the local
    list is [spot_data]. *)
Definition spot_balance (balance : balance)
  : M (list holding * state) unit :=
  let* asset := field (balance_asset balance) in
  if String.prefix "LD" asset then ret tt
  else
    let* free := field (balance_free balance) in
    let* locked := field (balance_locked balance) in
    let total := (free + locked)%float in
    if gtb total 0 then
      let* current_price := lift (_get_current_price asset) in
      if gtb current_price 0
      then append (spot_holding asset total current_price)
      else ret tt
    else ret tt.

Definition _get_spot_data : M state (list holding) :=
  with_local []
    (try_except
       (let* balances := lift account_balances in
        for_each balances spot_balance ;;;
        get_local)
       (fun _ => ret [])).

(** Body of [for pos in data['rows']] in
    [_get_all_simple_earn_positions]; the local list is [positions]. *)
Definition bulk_row (product_type : string) (pos : position)
  : M (list holding * state) unit :=
  let* asset := field (pos_asset pos) in
  let* amount := field (pos_totalAmount pos) in
  if gtb amount 0 then
    let* current_price := lift (_get_current_price asset) in
    if gtb current_price 0 then
      let* rate := field (pos_apr pos) in
      append (earn_holding asset amount current_price product_type
                (rate * 100)%float)
    else ret tt
  else ret tt.

(** [for attempt in range(3)] of the bulk discovery; the local list is
    [all_positions].  An attempt ends the loop ([break]) after a 200
    answer has been processed. *)
Fixpoint bulk_attempts (product_type url : string) (attempts : list nat)
  : M (list holding * state) unit :=
  match attempts with
  | [] => ret tt
  | attempt :: rest =>
      let* done :=
        try_except_request
          (let* response := lift (http_get url None) in
           if (fst response =? 200)%Z then
             let* positions :=
               lift (with_local []
                       (for_each (snd response) (bulk_row product_type) ;;;
                        get_local)) in
             extend positions ;;;
             ret true
           else ret false)
          (ret false) in
      if done then ret tt else bulk_attempts product_type url rest
  end.

(** Body of [for product_type, url in endpoints]: any other exception
    moves on to the next endpoint. *)
Definition bulk_endpoint (endpoint : string * string)
  : M (list holding * state) unit :=
  try_except (bulk_attempts (fst endpoint) (snd endpoint) (seq 0 3))
             (fun _ => ret tt).

Definition _get_all_simple_earn_positions : M state (list holding) :=
  with_local []
    (try_except
       (for_each endpoints bulk_endpoint ;;;
        get_local)
       (fun _ => ret [])).

(** Body of [for pos in data['rows']] in
    [_get_simple_earn_asset_positions]: the asset is the one asked for,
    and the rows are appended to the function's own [positions]. *)
Definition targeted_row (asset product_type : string) (pos : position)
  : M (list holding * state) unit :=
  let* amount := field (pos_totalAmount pos) in
  if gtb amount 0 then
    let* current_price := lift (_get_current_price asset) in
    if gtb current_price 0 then
      let* rate := field (pos_apr pos) in
      append (earn_holding asset amount current_price product_type
                (rate * 100)%float)
    else ret tt
  else ret tt.

(** [for attempt in range(2)] of the targeted discovery. *)
Fixpoint targeted_attempts (asset product_type url : string)
    (attempts : list nat) : M (list holding * state) unit :=
  match attempts with
  | [] => ret tt
  | attempt :: rest =>
      let* done :=
        try_except_request
          (let* response := lift (http_get url (Some asset)) in
           if (fst response =? 200)%Z then
             for_each (snd response) (targeted_row asset product_type) ;;;
             ret true
           else ret false)
          (ret false) in
      if done then ret tt
      else targeted_attempts asset product_type url rest
  end.

Definition targeted_endpoint (asset : string) (endpoint : string * string)
  : M (list holding * state) unit :=
  try_except
    (targeted_attempts asset (fst endpoint) (snd endpoint) (seq 0 2))
    (fun _ => ret tt).

Definition _get_simple_earn_asset_positions (asset : string)
  : M state (list holding) :=
  with_local []
    (try_except
       (for_each endpoints (targeted_endpoint asset) ;;;
        get_local)
       (fun _ => ret [])).

(** The deduplication loop of [_get_earn_data]: [unique_earn_data] and
    [seen_assets] are threaded through [for item in earn_data]. *)
Fixpoint remove_duplicates (earn_data unique_earn_data : list holding)
    (seen_assets : gset string) : list holding :=
  match earn_data with
  | [] => unique_earn_data
  | item :: rest =>
      if decide (asset item ∈ seen_assets)
      then remove_duplicates rest unique_earn_data seen_assets
      else remove_duplicates rest (unique_earn_data ++ [item])
             (seen_assets ∪ {[asset item]})
  end.

(** [asset not in found_assets] *)
Definition not_in (asset : string) (found_assets : list string) : bool :=
  negb (existsb (String.eqb asset) found_assets).

(** Body of [for asset in missing_assets]; the local list is
    [earn_data]. *)
Definition search_missing (asset : string)
  : M (list holding * state) unit :=
  let* specific_positions := lift (_get_simple_earn_asset_positions asset) in
  if truthy specific_positions then extend specific_positions else ret tt.

Definition _get_earn_data : M state (list holding) :=
  with_local []
    (try_except
       (let* all_positions := lift _get_all_simple_earn_positions in
        (if truthy all_positions then extend all_positions else ret tt) ;;;
        let* earn_data := get_local in
        let found_assets := map asset earn_data in
        let missing_assets :=
          List.filter (fun asset => not_in asset found_assets) known_assets in
        (if truthy missing_assets
         then for_each missing_assets search_missing
         else ret tt) ;;;
        let* earn_data := get_local in
        ret (remove_duplicates earn_data [] ∅))
       (fun _ => ret [])).

(** The validation of step 3.  Every key is present and every number is
    a float by construction of [holding], so what remains of the test is
    the three strict comparisons. *)
Definition valid (item : holding) : bool :=
  gtb (quantity item) 0 && gtb (current_price item) 0
  && gtb (current_value item) 0.

(** [list.sort(key=lambda x: x['current_value'], reverse=True)].  The
    interpreter's sort is stable and compares keys with [<] only; on keys
    that [<] orders totally its result is the one of this insertion sort,
    which puts an item before the first later item that is not strictly
    greater. *)
Fixpoint insert_desc (x : holding) (l : list holding) : list holding :=
  match l with
  | [] => [x]
  | y :: l' =>
      if (current_value x <? current_value y)%float
      then y :: insert_desc x l'
      else x :: y :: l'
  end.

Fixpoint sort_desc (l : list holding) : list holding :=
  match l with
  | [] => []
  | x :: l' => insert_desc x (sort_desc l')
  end.

Definition get_portfolio_data : M state (list holding) :=
  try_except
    (let* spot_data := _get_spot_data in
     let* earn_data := _get_earn_data in
     let portfolio_data := spot_data ++ earn_data in
     let valid_data := List.filter valid portfolio_data in
     let filtered_data :=
       List.filter (fun item => geb (current_value item) 1) valid_data in
     ret (sort_desc filtered_data))
    (fun e => raise e).

End Program.

(** ** Properties of monadic code *)

(** The store property [I] survives [m], whether [m] returns or raises. *)
Definition preserves {Σ A} (I : Σ -> Prop) (m : M Σ A) : Prop :=
  forall s, I s -> I (snd (m s)).

(** [m] always returns. *)
Definition never_raises {Σ A} (m : M Σ A) : Prop :=
  forall s, exists a, fst (m s) = Ok a.

(** [m] raises nothing but [Exception]: what [except
    requests.exceptions.RequestException] lets through. *)
Definition raises_only_Exception {Σ A} (m : M Σ A) : Prop :=
  forall s e, fst (m s) = Raise e -> e = Exception.

(** ** The HTTP requests of a run *)

(** The requests to the Simple Earn endpoints among logged events, in
    order: URL, asset filter, and what came back. *)
Definition http_calls (evs : list event)
  : list (string * option string * http_outcome) :=
  flat_map (fun ev => match ev with
                      | HttpCall url asset_param outcome =>
                          [(url, asset_param, outcome)]
                      | _ => []
                      end) evs.

(** An attempt after which the retry loops try again: a
    [RequestException], raised by [requests.get] (a network failure) or by
    [response.json()] (a 200 answer whose body is not JSON), or a status
    other than 200. *)
Definition retryable (outcome : http_outcome) : Prop :=
  match outcome with
  | HttpRaises RequestException => True
  | HttpRaises Exception => False
  | HttpResponse status_code _ => status_code <> 200%Z
  | HttpUnreadable status_code e =>
      status_code <> 200%Z \/ e = RequestException
  | SigningRaises => False
  end.

(** The causes of a retry that the specification names: a network failure
    or a status other than 200. *)
Definition network_failure_or_non_200 (outcome : http_outcome) : Prop :=
  match outcome with
  | HttpRaises RequestException => True
  | HttpRaises Exception => False
  | HttpResponse status_code _ => status_code <> 200%Z
  | HttpUnreadable status_code _ => status_code <> 200%Z
  | SigningRaises => False
  end.

(** The outcomes of the attempts made on one endpoint respect a policy of
    [n] attempts: there are at most [n], and every attempt that was
    followed by another one was retryable. *)
Definition attempts_ok (n : nat) (outcomes : list http_outcome) : Prop :=
  length outcomes <= n /\ Forall retryable (removelast outcomes).

(** The policy as the specification words it: at most [n] attempts, and
    every attempt that was followed by another one was a network failure
    or a status other than 200. *)
Definition attempts_as_specified (n : nat) (outcomes : list http_outcome)
  : Prop :=
  length outcomes <= n
  /\ Forall network_failure_or_non_200 (removelast outcomes).

(** The requests made so far are [H]. *)
Definition http_is (H : list (string * option string * http_outcome))
  (s : state) : Prop := http_calls (log s) = H.

(** ** Framing the local list *)

(** [m] only appends to the local list: run on a list [l] it does what it
    does on the empty list, with [l] in front. *)
Definition framed {A B} (m : M (list A * state) B) : Prop :=
  forall l s, m (l, s)
              = (fst (m ([], s)), (l ++ fst (snd (m ([], s))), snd (snd (m ([], s))))).

(** What one endpoint contributes when it is processed on its own, from an
    empty list, and the state it leaves. *)
Definition endpoint_positions (w : World) (endpoint : string * string)
  (s : state) : list holding * state :=
  snd (bulk_endpoint w endpoint ([], s)).

(** All three attempts that the bulk discovery makes on [url] from [s] fail
    in a retryable way. *)
Definition total_failure (w : World) (url : string) (s : state) : Prop :=
  forall k, k < 3 -> retryable (requests_get w (tick s + k) url None).

(** An attempt that is not a processed 200 answer. *)
Definition no_success (outcome : http_outcome) : Prop :=
  match outcome with
  | HttpRaises _ => True
  | HttpResponse status_code _ => status_code <> 200%Z
  | HttpUnreadable _ _ => True
  | SigningRaises => True
  end.

(** ** The price resolver *)

(** The answers a resolution started in [s] gets: the clock is read at
    [tick s], the direct pair is asked at the next tick, then the pair
    against BTC, then BTC against USDT. *)
Definition clock_at (w : World) (s : state) : float :=
  time_time w (tick s).
Definition direct_pair (w : World) (asset : string) (s : state) : option float :=
  get_symbol_ticker w (S (tick s)) (asset ++ "USDT")%string.
Definition bridge_hop (w : World) (asset : string) (s : state) : option float :=
  get_symbol_ticker w (S (S (tick s))) (asset ++ "BTC")%string.
Definition bridge_to_settlement (w : World) (s : state) : option float :=
  get_symbol_ticker w (S (S (S (tick s)))) "BTCUSDT".

(** No cache entry for [asset], or one that is 300 seconds old or more. *)
Definition cache_miss (w : World) (asset : string) (s : state) : Prop :=
  match _price_cache s !! asset with
  | Some (_, cached_time) => (clock_at w s - cached_time <? 300)%float = false
  | None => True
  end.

(** Both the direct pair and the two-hop path fail. *)
Definition unresolvable (w : World) (asset : string) (s : state) : Prop :=
  cache_miss w asset s
  /\ direct_pair w asset s = None
  /\ (bridge_hop w asset s = None \/ bridge_to_settlement w s = None).

(** ** The spot wallet source *)

(** What [_get_spot_data] guarantees of each holding it emits. *)
Definition spot_emitted (h : holding) : Prop :=
  String.prefix "LD" (asset h) = false /\ source h = "Spot".

(** ** Reconciliation of the two discovery strategies *)

(** [h] is the first entry of [l] with its asset symbol. *)
Definition first_seen (h : holding) (l : list holding) : Prop :=
  exists before after,
    l = before ++ h :: after
    /\ Forall (fun x => asset x <> asset h) before.

(** [y] is a holding of another asset than [x]. *)
Definition other_asset (x y : holding) : bool :=
  negb (String.eqb (asset y) (asset x)).

(** Deduplication as the specification words it: keep the first occurrence
    of each asset symbol, drop every later one. *)
Fixpoint dedup_first (l : list holding) : list holding :=
  match l with
  | [] => []
  | x :: rest => x :: List.filter (other_asset x) (dedup_first rest)
  end.

(** Reconciliation as the specification words it: Strategy A's results
    followed by Strategy B's, then deduplicated. *)
Definition reconcile (strategy_A strategy_B : list holding) : list holding :=
  dedup_first (strategy_A ++ strategy_B).

(** Strategy B as [_get_earn_data] runs it: the targeted lookups of the
    missing assets, one after the other, and their results in that order. *)
Fixpoint targeted_discovery (w : World) (missing_assets : list string)
    (s : state) : list holding * state :=
  match missing_assets with
  | [] => ([], s)
  | asset :: rest =>
      let (r, s1) := _get_simple_earn_asset_positions w asset s in
      let (more, s2) := targeted_discovery w rest s1 in
      (match r with Ok found => found | Raise _ => [] end ++ more, s2)
  end.

(** ** Sorting by value *)

(** Adjacent entries are in descending order of value. *)
Definition descending (l : list holding) : Prop :=
  forall i x y,
    l !! i = Some x -> l !! S i = Some y ->
    geb (current_value x) (current_value y) = true.

(** The same, as a chain. *)
Inductive chain_desc : list holding -> Prop :=
| chain_nil : chain_desc []
| chain_one x : chain_desc [x]
| chain_cons x y l :
    geb (current_value x) (current_value y) = true ->
    chain_desc (y :: l) -> chain_desc (x :: y :: l).

(** The value passed the dust filter: it is at least 1.0, hence not NaN. *)
Definition above_dust (h : holding) : Prop :=
  geb (current_value h) 1 = true.

(** The holdings whose value equals [v], in list order. *)
Definition with_value (v : float) (l : list holding) : list holding :=
  List.filter (fun h => (v =? current_value h)%float) l.

(** ** The aggregator *)

(** Steps 3 and 4 of [get_portfolio_data]: validation, then the dust
    filter. *)
Definition displayed (portfolio_data : list holding) : list holding :=
  List.filter (fun item => geb (current_value item) 1)
    (List.filter valid portfolio_data).

(** ** The Simple Earn source *)

(** [m] returns only values satisfying [Q]. *)
Definition yields {Σ A} (Q : A -> Prop) (m : M Σ A) : Prop :=
  forall s a, fst (m s) = Ok a -> Q a.

(** What the Simple Earn functions guarantee of each holding they emit. *)
Definition earn_emitted (h : holding) : Prop := source h = "Simple Earn".

(** The holding comes from the Simple Earn silo. *)
Definition from_earn (h : holding) : bool :=
  String.eqb (source h) "Simple Earn".

(** The holding comes from the spot wallet. *)
Definition from_spot (h : holding) : bool :=
  String.eqb (source h) "Spot".

(** ** Total failure of both sources *)

(** No attempt on the Simple Earn endpoints ever gets a 200 answer that
    can be read. *)
Definition http_down (w : World) : Prop :=
  forall t url asset_param, no_success (requests_get w t url asset_param).

(** ** Concrete environments *)

(** A price table that does not change over time. *)
Fixpoint quoted (table : list (string * float)) (symbol : string)
  : option float :=
  match table with
  | [] => None
  | (sym, price) :: rest =>
      if String.eqb sym symbol then Some price else quoted rest symbol
  end.

(** BTC is held in the spot wallet and subscribed in a flexible product. *)
Definition both_silos : World :=
  {| time_time := fun _ => 1000%float;
     get_symbol_ticker := fun _ => quoted [("BTCUSDT", 50000%float)];
     get_account := fun _ =>
       Some [mk_balance (Some "BTC") (Some 1%float) (Some 0.5%float)];
     requests_get := fun _ url asset_param =>
       match asset_param with
       | None =>
           if String.eqb url FLEXIBLE_URL
           then HttpResponse 200
                  [mk_position (Some "BTC") (Some 2%float) (Some 0.5%float)]
           else HttpResponse 200 []
       | Some _ => HttpResponse 200 []
       end |}.

(** Nothing answers: the account listing raises and every request to the
    Simple Earn endpoints is a network failure. *)
Definition all_down : World :=
  {| time_time := fun _ => 1000%float;
     get_symbol_ticker := fun _ _ => None;
     get_account := fun _ => None;
     requests_get := fun _ _ _ => HttpRaises RequestException |}.

(** A spot wallet with a priced asset (BTC), an "LD" asset (LDO), an asset
    priced through BTC only (XYZ) and an asset without any pair (NOP). *)
Definition spot_only : World :=
  {| time_time := fun _ => 1000%float;
     get_symbol_ticker := fun _ =>
       quoted [("BTCUSDT", 50000%float); ("XYZBTC", 0.5%float)];
     get_account := fun _ =>
       Some [mk_balance (Some "LDO") (Some 7%float) (Some 0%float);
             mk_balance (Some "NOP") (Some 3%float) (Some 0%float);
             mk_balance (Some "BTC") (Some 1%float) (Some 0.5%float)];
     requests_get := fun _ _ _ => HttpRaises RequestException |}.

(** The flexible endpoint is unreachable, the locked one lists BTC. *)
Definition flexible_down : World :=
  {| time_time := fun _ => 1000%float;
     get_symbol_ticker := fun _ => quoted [("BTCUSDT", 50000%float)];
     get_account := fun _ => Some [];
     requests_get := fun _ url _ =>
       if String.eqb url FLEXIBLE_URL
       then HttpRaises RequestException
       else HttpResponse 200
              [mk_position (Some "BTC") (Some 2%float) (Some 0.5%float)] |}.

(** The flexible endpoint lists BTC, the locked one answers 503. *)
Definition locked_down : World :=
  {| time_time := fun _ => 1000%float;
     get_symbol_ticker := fun _ => quoted [("BTCUSDT", 50000%float)];
     get_account := fun _ => Some [];
     requests_get := fun _ url _ =>
       if String.eqb url FLEXIBLE_URL
       then HttpResponse 200
              [mk_position (Some "BTC") (Some 2%float) (Some 0.5%float)]
       else HttpResponse 503 [] |}.

(** The first attempt of a run gets a 200 answer whose body is not JSON;
    every later one gets an empty listing. *)
Definition garbled_body : World :=
  {| time_time := fun _ => 1000%float;
     get_symbol_ticker := fun _ _ => None;
     get_account := fun _ => Some [];
     requests_get := fun t _ _ =>
       match t with
       | 0 => HttpUnreadable 200 RequestException
       | _ => HttpResponse 200 []
       end |}.

(** The secret key is not configured: no query can be signed. *)
Definition no_secret_key : World :=
  {| time_time := fun _ => 1000%float;
     get_symbol_ticker := fun _ => quoted [("BTCUSDT", 50000%float)];
     get_account := fun _ => Some [];
     requests_get := fun _ _ _ => SigningRaises |}.

(** A state whose cache holds a BTC price fetched 100 seconds before the
    clock of the environments above. *)
Definition warm_cache : state :=
  {| _price_cache := {[ "BTC" := (50000%float, 900%float) ]};
     tick := 5;
     log := [] |}.

(** ** The shape of the holdings *)

(** What every holding built by the sources has: positive quantity and
    price, a value that is their product, and the four user-entered fields
    at zero. *)
Definition priced (h : holding) : Prop :=
  gtb (quantity h) 0 = true
  /\ gtb (current_price h) 0 = true
  /\ current_value h = (quantity h * current_price h)%float
  /\ avg_price h = 0%float
  /\ total_invested h = 0%float
  /\ pnl_percentage h = 0%float
  /\ pnl_euro h = 0%float.

Definition spot_shaped (h : holding) : Prop :=
  priced h /\ source h = "Spot" /\ type h = "Spot" /\ apr h = 0%float.

Definition earn_shaped (h : holding) : Prop :=
  priced h /\ source h = "Simple Earn"
  /\ (type h = "Flexible" \/ type h = "Locked").

(** [len([i for i in portfolio_data if i['source'] == 'Spot'])] and its
    Simple Earn twin, as [main] and [_add_summary] count them. *)
Definition spot_count (portfolio_data : list holding) : nat :=
  length (List.filter (fun i => String.eqb (source i) "Spot") portfolio_data).

Definition earn_count (portfolio_data : list holding) : nat :=
  length (List.filter (fun i => String.eqb (source i) "Simple Earn")
            portfolio_data).

(** ** What a resolution fetches *)

(** The price the network gives to a resolution started in [s]: the
    direct pair if it answers, else the product of the two hops if both
    answer. *)
Definition fetched (w : World) (asset : string) (s : state) : option float :=
  match direct_pair w asset s with
  | Some price => Some price
  | None =>
      match bridge_hop w asset s, bridge_to_settlement w s with
      | Some btc_price, Some btc_usdt => Some (btc_price * btc_usdt)%float
      | _, _ => None
      end
  end.

(** The ticker symbols a resolution of [asset] may ask, in order. *)
Definition ticker_plan (asset : string) : list event :=
  [TickerCall (asset ++ "USDT")%string; TickerCall (asset ++ "BTC")%string;
   TickerCall "BTCUSDT"].

(** ** Balances the spot loop cannot read, and balances it passes over *)

(** A key is missing or a number does not convert: no asset, or an asset
    without the "LD" prefix whose free or locked amount is unreadable. *)
Definition unreadable_balance (b : balance) : Prop :=
  match balance_asset b with
  | None => True
  | Some a =>
      String.prefix "LD" a = false
      /\ (balance_free b = None
          \/ (exists free, balance_free b = Some free)
             /\ balance_locked b = None)
  end.

(** Readable, and either "LD"-prefixed or with a total that is not
    strictly positive. *)
Definition idle_balance (b : balance) : Prop :=
  exists a, balance_asset b = Some a
            /\ (String.prefix "LD" a = true
                \/ exists free locked,
                     balance_free b = Some free
                     /\ balance_locked b = Some locked
                     /\ gtb (free + locked) 0 = false).

(** ** Rows the discoveries cannot read, and exhausted retries *)

(** The state after [n] consecutive requests on [url], none of which
    led to anything else. *)
Fixpoint after_requests (w : World) (url : string)
    (asset_param : option string) (n : nat) (s : state) : state :=
  match n with
  | 0 => s
  | S n' =>
      after_requests w url asset_param n'
        (consult [HttpCall url asset_param
                    (requests_get w (tick s) url asset_param)] s)
  end.

(** The requests of [after_requests], as the log keeps them. *)
Definition failed_calls (w : World) (url : string)
    (asset_param : option string) (n : nat) (s : state)
  : list (string * option string * http_outcome) :=
  map (fun k => (url, asset_param,
                 requests_get w (tick s + k) url asset_param)) (seq 0 n).

(** ** How the two strategies meet *)

(** The assets Strategy B looks up once Strategy A returned
    [strategy_A]: [missing_assets] of [_get_earn_data]. *)
Definition missing_after (strategy_A : list holding) : list string :=
  List.filter (fun a => not_in a (map asset strategy_A)) known_assets.

(** The requests of [calls] that were filtered to [a]. *)
Definition calls_for (a : string)
    (calls : list (string * option string * http_outcome))
  : list (string * option string * http_outcome) :=
  List.filter (fun call => match snd (fst call) with
                           | Some b => String.eqb a b
                           | None => false
                           end) calls.

(** The request was filtered to an asset of [assets]. *)
Definition asks_one_of (assets : list string)
  (call : string * option string * http_outcome) : Prop :=
  exists a, snd (fst call) = Some a /\ In a assets.

(** ** The single-request listing *)

(** The request an attempt sends, as the log keeps it: none when the
    signature raises. *)
Definition requests_sent (url : string) (asset_param : option string)
    (outcome : http_outcome)
  : list (string * option string * http_outcome) :=
  match outcome with
  | SigningRaises => []
  | _ => [(url, asset_param, outcome)]
  end.

(** The URL [_get_simple_earn_positions] asks: the locked endpoint for
    'LOCKED', the flexible one for anything else. *)
Definition positions_url (product_type : string) : string :=
  if String.eqb product_type "LOCKED" then LOCKED_URL else FLEXIBLE_URL.

(** [_get_simple_earn_positions]: one product type, one request, no
    retry.  Its rows loop is, line for line, the one of the bulk
    discovery. *)
Definition _get_simple_earn_positions (w : World) (product_type : string)
  : M state (list holding) :=
  try_except
    (let* response := http_get w (positions_url product_type) None in
     if (fst response =? 200)%Z then
       with_local []
         (for_each (snd response) (bulk_row w product_type) ;;; get_local)
     else ret [])%py
    (fun _ => ret []).

(** ** The average purchase price *)

(** An entry of the trade history, read as the balances are: a field is
    [None] when reading it raises. *)
Record trade := mk_trade {
  isBuyer : option bool;
  quoteQty : option float;
  qty : option float
}.

(** [[t for t in trades if t['isBuyer']]], [None] when a key is missing. *)
Fixpoint buyers (trades : list trade) : option (list trade) :=
  match trades with
  | [] => Some []
  | t :: rest =>
      match isBuyer t, buyers rest with
      | Some true, Some kept => Some (t :: kept)
      | Some false, Some kept => Some kept
      | _, _ => None
      end
  end.

(** [float(t[key]) for t in buy_trades], [None] when a conversion
    raises. *)
Fixpoint amounts (key : trade -> option float) (buy_trades : list trade)
  : option (list float) :=
  match buy_trades with
  | [] => Some []
  | t :: rest =>
      match key t, amounts key rest with
      | Some x, Some xs => Some (x :: xs)
      | _, _ => None
      end
  end.

Section AveragePrice.

Variable w : World.

(** [self.client.get_my_trades(symbol=..., limit=100)] at a tick, [None]
    when the call raises.  The call advances the tick; the log keeps the
    calls of the aggregation only. *)
Variable get_my_trades : nat -> string -> option (list trade).

(** The interpreter's [sum] over floats (its rounding depends on the
    interpreter's version, so it is left open). *)
Variable sum : list float -> float.

Local Open Scope py_scope.

Definition my_trades (symbol : string) : M state (list trade) :=
  fun s => (match get_my_trades (tick s) symbol with
            | Some trades => Ok trades
            | None => Raise Exception
            end, consult [] s).

(** The part of [_get_average_price] before the fallback: [Some] is the
    early [return avg_price]. *)
Definition average_of_buys (trades : list trade) : M state (option float) :=
  if truthy trades then
    let* buy_trades := field (buyers trades) in
    if truthy buy_trades then
      let* costs := field (amounts quoteQty buy_trades) in
      let* quantities := field (amounts qty buy_trades) in
      let total_cost := sum costs in
      let total_quantity := sum quantities in
      if gtb total_quantity 0
      then ret (Some (total_cost / total_quantity)%float)
      else ret None
    else ret None
  else ret None.

Definition _get_average_price (asset : string) : M state float :=
  try_except
    (let* trades := my_trades (asset ++ "USDT")%string in
     let* trades := (if truthy trades then ret trades
                     else my_trades (asset ++ "BTC")%string) in
     let* avg_price := average_of_buys trades in
     match avg_price with
     | Some avg_price => ret avg_price
     | None =>
         let* current_price := _get_current_price w asset in
         if gtb current_price 0 then ret current_price else ret 0%float
     end)
    (fun _ => ret 0%float).

End AveragePrice.

(** The trades that [_get_average_price] works on, and the state in which
    it goes on: the USDT history if it is not empty, else the BTC
    history, asked one tick later. *)
Definition history (get_my_trades : nat -> string -> option (list trade))
    (asset : string) (s : state) : option (list trade) * state :=
  match get_my_trades (tick s) (asset ++ "USDT")%string with
  | Some [] =>
      (get_my_trades (S (tick s)) (asset ++ "BTC")%string,
       consult [] (consult [] s))
  | answer => (answer, consult [] s)
  end.

(** ** More concrete environments *)

(** A wallet whose second balance has an unreadable free amount. *)
Definition broken_wallet : World :=
  {| time_time := fun _ => 1000%float;
     get_symbol_ticker := fun _ => quoted [("BTCUSDT", 50000%float)];
     get_account := fun _ =>
       Some [mk_balance (Some "BTC") (Some 1%float) (Some 0.5%float);
             mk_balance (Some "ETH") None (Some 1%float)];
     requests_get := fun _ _ _ => HttpRaises RequestException |}.

(** A wallet with an "LD" balance and an empty balance only. *)
Definition idle_wallet : World :=
  {| time_time := fun _ => 1000%float;
     get_symbol_ticker := fun _ => quoted [("BTCUSDT", 50000%float)];
     get_account := fun _ =>
       Some [mk_balance (Some "LDO") (Some 7%float) (Some 0%float);
             mk_balance (Some "ETH") (Some 0%float) (Some 0%float)];
     requests_get := fun _ _ _ => HttpRaises RequestException |}.

(** Every Simple Earn request is answered with a BTC row, a row without
    fields, and an ETH row. *)
Definition broken_rows : World :=
  {| time_time := fun _ => 1000%float;
     get_symbol_ticker := fun _ =>
       quoted [("BTCUSDT", 50000%float); ("ETHUSDT", 2000%float)];
     get_account := fun _ => Some [];
     requests_get := fun _ _ _ =>
       HttpResponse 200
         [mk_position (Some "BTC") (Some 2%float) (Some 0.5%float);
          mk_position None None None;
          mk_position (Some "ETH") (Some 1%float) (Some 0.5%float)] |}.

(** The account listing raises, the flexible endpoint lists BTC. *)
Definition earn_only : World :=
  {| time_time := fun _ => 1000%float;
     get_symbol_ticker := fun _ => quoted [("BTCUSDT", 50000%float)];
     get_account := fun _ => None;
     requests_get := fun _ url asset_param =>
       match asset_param with
       | None =>
           if String.eqb url FLEXIBLE_URL
           then HttpResponse 200
                  [mk_position (Some "BTC") (Some 2%float) (Some 0.5%float)]
           else HttpResponse 200 []
       | Some _ => HttpResponse 200 []
       end |}.

(** A trade history: two buys and a sell of XYZ against BTC, nothing
    against USDT, nothing at all for other assets. *)
Definition xyz_trades (t : nat) (symbol : string) : option (list trade) :=
  if String.eqb symbol "XYZBTC"
  then Some [mk_trade (Some true) (Some 1%float) (Some 2%float);
             mk_trade (Some false) (Some 9%float) (Some 9%float);
             mk_trade (Some true) (Some 2%float) (Some 2%float)]
  else Some [].

(** A summation from left to right. *)
Definition sum_left (xs : list float) : float :=
  fold_left PrimFloat.add xs 0%float.

(** ** The order of the whole list *)

(** Every entry is at least as valuable as every later one. *)
Definition ranked (l : list holding) : Prop :=
  forall i j x y,
    i <= j -> l !! i = Some x -> l !! j = Some y ->
    geb (current_value x) (current_value y) = true.

(** * Part II: the properties *)

(** ** Facts about binary64 comparisons *)

Module FloatFacts.

Lemma SFcompare_antisym (a b : spec_float) (c : comparison) :
  SFcompare a b = Some c -> SFcompare b a = Some (CompOpp c).
Proof.
  destruct a as [sa| sa| |sa ma ea], b as [sb| sb| |sb mb eb]; simpl;
    intros H; try discriminate; inversion H; subst; clear H;
    try (destruct sa; try destruct sb; reflexivity);
    try (destruct sb; reflexivity).
  destruct sa, sb; simpl; try reflexivity.
  - rewrite (Z.compare_antisym ea eb).
    destruct (ea ?= eb)%Z; simpl; try reflexivity.
    f_equal. rewrite CompOpp_involutive.
    exact (Pos.compare_cont_antisym mb ma Eq).
  - rewrite (Z.compare_antisym ea eb).
    destruct (ea ?= eb)%Z; simpl; try reflexivity.
    f_equal. symmetry. exact (Pos.compare_cont_antisym ma mb Eq).
Qed.

Lemma SFcompare_some (a b : spec_float) :
  a <> S754_nan -> b <> S754_nan -> exists c, SFcompare a b = Some c.
Proof.
  destruct a, b; simpl; intros Ha Hb; try congruence; eauto.
Qed.

Lemma SFleb_not_nan_r (a b : spec_float) :
  SFleb a b = true -> b <> S754_nan.
Proof.
  unfold SFleb. destruct a, b; simpl; congruence.
Qed.

Lemma SFcompare_Eq_l (k x y : spec_float) :
  SFcompare k x = Some Eq -> SFcompare k y = SFcompare x y.
Proof.
  destruct k as [sk| sk| |sk mk ek], x as [sx| sx| |sx mx ex]; simpl;
    intros H; try discriminate;
    try (destruct sk; discriminate);
    try (destruct sx; discriminate).
  - reflexivity.
  - destruct sk, sx; try discriminate; reflexivity.
  - destruct sk, sx; try discriminate.
    + destruct (ek ?= ex)%Z eqn:He; try discriminate.
      apply Z.compare_eq in He.
      destruct (Pos.compare_cont Eq mk mx) eqn:Hm; try discriminate.
      apply Pos.compare_eq in Hm. now subst.
    + destruct (ek ?= ex)%Z eqn:He; try discriminate.
      apply Z.compare_eq in He.
      destruct (Pos.compare_cont Eq mk mx) eqn:Hm; try discriminate.
      apply Pos.compare_eq in Hm. now subst.
Qed.

(** Above a common lower bound (so neither is NaN), [x < y] failing
    means [y <= x]. *)
Lemma not_ltb_geb (lo x y : float) :
  PrimFloat.leb lo x = true -> PrimFloat.leb lo y = true ->
  PrimFloat.ltb x y = false -> geb x y = true.
Proof.
  unfold geb. rewrite !FloatAxioms.leb_spec, FloatAxioms.ltb_spec. intros Hx Hy.
  apply SFleb_not_nan_r in Hx. apply SFleb_not_nan_r in Hy.
  destruct (SFcompare_some _ _ Hx Hy) as [c Hc].
  unfold SFltb, SFleb. rewrite Hc, (SFcompare_antisym _ _ _ Hc).
  destruct c; simpl; congruence.
Qed.

Lemma ltb_geb (x y : float) :
  PrimFloat.ltb x y = true -> geb y x = true.
Proof.
  unfold geb. rewrite FloatAxioms.leb_spec, FloatAxioms.ltb_spec. unfold SFltb, SFleb.
  destruct (SFcompare _ _) as [[]|]; congruence.
Qed.

(** A float equal to [x] is not equal to anything strictly above [x]. *)
Lemma eqb_ltb_neq (k x y : float) :
  PrimFloat.eqb k x = true -> PrimFloat.ltb x y = true ->
  PrimFloat.eqb k y = false.
Proof.
  rewrite !FloatAxioms.eqb_spec, FloatAxioms.ltb_spec. unfold SFeqb, SFltb. intros Hk Hlt.
  destruct (SFcompare (Prim2SF k) (Prim2SF x)) as [[]|] eqn:E; try discriminate.
  rewrite (SFcompare_Eq_l _ _ _ E).
  destruct (SFcompare (Prim2SF x) (Prim2SF y)) as [[]|]; congruence.
Qed.

(** [x > 0] fails for NaN and for both zeros; in particular [0.0 > 0]
    is false, which is what makes 0.0 usable as the "no price" value. *)
Lemma zero_not_positive : gtb 0%float 0%float = false.
Proof. reflexivity. Qed.

End FloatFacts.

Import FloatFacts.

(** ** [str.title] on the product types *)

Example title_FLEXIBLE : title "FLEXIBLE" = "Flexible".
Proof. reflexivity. Qed.

Example title_LOCKED : title "LOCKED" = "Locked".
Proof. reflexivity. Qed.

(** ** Rules for reasoning about monadic code *)

Section Rules.

Context {Σ : Type}.

Lemma preserves_ret {A} (I : Σ -> Prop) (a : A) : preserves I (ret a).
Proof. intros s Hs. exact Hs. Qed.

Lemma preserves_raise {A} (I : Σ -> Prop) e : preserves I (@raise Σ A e).
Proof. intros s Hs. exact Hs. Qed.

Lemma preserves_field {A} (I : Σ -> Prop) (o : option A) : preserves I (field o).
Proof. destruct o; [apply preserves_ret | apply preserves_raise]. Qed.

Lemma preserves_bind {A B} (I : Σ -> Prop) (m : M Σ A) (k : A -> M Σ B) :
  preserves I m -> (forall a, preserves I (k a)) -> preserves I (bind m k).
Proof.
  intros Hm Hk s Hs. unfold bind. specialize (Hm s Hs).
  destruct (m s) as [[a|e] s1]; simpl in *.
  - now apply Hk.
  - exact Hm.
Qed.

Lemma preserves_try_except {A} (I : Σ -> Prop) (m : M Σ A) (h : exn -> M Σ A) :
  preserves I m -> (forall e, preserves I (h e)) ->
  preserves I (try_except m h).
Proof.
  intros Hm Hh s Hs. unfold try_except. specialize (Hm s Hs).
  destruct (m s) as [[a|e] s1]; simpl in *.
  - exact Hm.
  - now apply Hh.
Qed.

Lemma preserves_try_except_request {A} (I : Σ -> Prop) (m h : M Σ A) :
  preserves I m -> preserves I h -> preserves I (try_except_request m h).
Proof.
  intros Hm Hh. apply preserves_try_except; [exact Hm|].
  intros [|]; [exact Hh | apply preserves_raise].
Qed.

Lemma preserves_for_each {A} (I : Σ -> Prop) (xs : list A) (body : A -> M Σ unit) :
  (forall x, preserves I (body x)) -> preserves I (for_each xs body).
Proof.
  intros Hbody. induction xs as [|x xs IH]; simpl.
  - apply preserves_ret.
  - apply preserves_bind; [apply Hbody | intros _; exact IH].
Qed.

Lemma never_raises_ret {A} (a : A) : never_raises (@ret Σ A a).
Proof. intros s. now exists a. Qed.

Lemma never_raises_bind {A B} (m : M Σ A) (k : A -> M Σ B) :
  never_raises m -> (forall a, never_raises (k a)) ->
  never_raises (bind m k).
Proof.
  intros Hm Hk s. unfold bind. destruct (Hm s) as [a Ha].
  destruct (m s) as [[a'|e] s1]; simpl in Ha; [|discriminate].
  apply Hk.
Qed.

Lemma never_raises_try_except {A} (m : M Σ A) (h : exn -> M Σ A) :
  (forall e, never_raises (h e)) -> never_raises (try_except m h).
Proof.
  intros Hh s. unfold try_except.
  destruct (m s) as [[a|e] s1]; [now exists a | apply Hh].
Qed.

(** A computation that always returns, as an equation. *)
Lemma never_raises_run {A} (m : M Σ A) (s : Σ) :
  never_raises m -> exists a s', m s = (Ok a, s').
Proof.
  intros H. destruct (H s) as [a Ha].
  destruct (m s) as [r s']. simpl in Ha. subst. now exists a, s'.
Qed.

End Rules.

Section LocalRules.

Context {L : Type}.

(** A property of the global state is kept by a lifted computation that
    keeps it, and a property of the local list by every lifted one. *)
Lemma preserves_lift_global {A} (J : state -> Prop) (m : M state A) :
  preserves J m -> preserves (fun ls : L * state => J (snd ls)) (lift m).
Proof.
  intros Hm [l s] Hs. unfold lift. simpl in *. specialize (Hm s Hs).
  destruct (m s) as [r s1]. exact Hm.
Qed.

Lemma preserves_lift_local {A} (P : L -> Prop) (m : M state A) :
  preserves (fun ls : L * state => P (fst ls)) (lift m).
Proof.
  intros [l s] Hs. unfold lift. simpl in *.
  destruct (m s) as [r s1]. exact Hs.
Qed.

Lemma preserves_with_local {A} (J : state -> Prop) (l0 : L)
    (m : M (L * state) A) :
  preserves (fun ls => J (snd ls)) m -> preserves J (with_local l0 m).
Proof.
  intros Hm s Hs. unfold with_local. specialize (Hm (l0, s) Hs).
  destruct (m (l0, s)) as [r ls]. exact Hm.
Qed.

Lemma never_raises_with_local {A} (l0 : L) (m : M (L * state) A) :
  never_raises m -> never_raises (with_local l0 m).
Proof.
  intros Hm s. unfold with_local. destruct (Hm (l0, s)) as [a Ha].
  destruct (m (l0, s)) as [r ls]. now exists a.
Qed.

Lemma never_raises_lift {A} (m : M state A) :
  never_raises m -> never_raises (@lift L A m).
Proof.
  intros Hm [l s]. unfold lift. simpl. destruct (Hm s) as [a Ha].
  destruct (m s) as [r s1]. now exists a.
Qed.

End LocalRules.

Lemma preserves_append_global {A} (J : state -> Prop) (x : A) :
  preserves (fun ls : list A * state => J (snd ls)) (append x).
Proof. intros [l s] Hs. exact Hs. Qed.

Lemma preserves_extend_global {A} (J : state -> Prop) (xs : list A) :
  preserves (fun ls : list A * state => J (snd ls)) (extend xs).
Proof. intros [l s] Hs. exact Hs. Qed.

Lemma preserves_get_local {L} (I : L * state -> Prop) :
  preserves I (@get_local L).
Proof. intros ls Hs. exact Hs. Qed.

(** Appending keeps a property of every element of the local list. *)
Lemma preserves_append_Forall {A} (P : A -> Prop) (x : A) :
  P x -> preserves (fun ls : list A * state => Forall P (fst ls)) (append x).
Proof.
  intros Hx [l s] Hs. simpl in *. apply Forall_app. split; [exact Hs|].
  now constructor.
Qed.

Lemma preserves_extend_Forall {A} (P : A -> Prop) (xs : list A) :
  Forall P xs ->
  preserves (fun ls : list A * state => Forall P (fst ls)) (extend xs).
Proof.
  intros Hx [l s] Hs. simpl in *. apply Forall_app. now split.
Qed.

(** ** Which exceptions reach the retry loops *)

Lemma only_Exception_ret {Σ A} (a : A) : raises_only_Exception (@ret Σ A a).
Proof. intros s e H. discriminate. Qed.

Lemma only_Exception_field {Σ A} (o : option A) :
  raises_only_Exception (@field Σ A o).
Proof. intros s e H. destruct o; simpl in H; [discriminate | congruence]. Qed.

Lemma only_Exception_never {Σ A} (m : M Σ A) :
  never_raises m -> raises_only_Exception m.
Proof. intros Hm s e H. destruct (Hm s) as [a Ha]. congruence. Qed.

Lemma only_Exception_bind {Σ A B} (m : M Σ A) (k : A -> M Σ B) :
  raises_only_Exception m -> (forall a, raises_only_Exception (k a)) ->
  raises_only_Exception (bind m k).
Proof.
  intros Hm Hk s e. unfold bind. specialize (Hm s).
  destruct (m s) as [[a|e'] s1]; simpl in *.
  - apply Hk.
  - intros H. apply Hm. congruence.
Qed.

Lemma only_Exception_for_each {Σ A} (xs : list A) (body : A -> M Σ unit) :
  (forall x, raises_only_Exception (body x)) ->
  raises_only_Exception (for_each xs body).
Proof.
  intros Hbody. induction xs as [|x xs IH]; simpl.
  - apply only_Exception_ret.
  - apply only_Exception_bind; [apply Hbody | intros _; exact IH].
Qed.

(** ** The retry policy of the two discoveries *)

Lemma http_calls_app (evs1 evs2 : list event) :
  http_calls (evs1 ++ evs2) = http_calls evs1 ++ http_calls evs2.
Proof. apply flat_map_app. Qed.

Lemma attempts_ok_one (n : nat) (o : http_outcome) : attempts_ok (S n) [o].
Proof. split; simpl; [lia | constructor]. Qed.

Lemma attempts_ok_retry (n : nat) (o : http_outcome) (outs : list http_outcome) :
  retryable o -> attempts_ok n outs -> attempts_ok (S n) (o :: outs).
Proof.
  intros Ho [Hlen Hall]. split; [simpl; lia|].
  destruct outs as [|o' outs]; [constructor|].
  change (removelast (o :: o' :: outs)) with (o :: removelast (o' :: outs)).
  now constructor.
Qed.

Section HttpFacts.

Variable w : World.

Lemma price_never_raises (a : string) : never_raises (_get_current_price w a).
Proof.
  apply never_raises_try_except. intros e. apply never_raises_ret.
Qed.

Lemma symbol_ticker_http H (symbol : string) :
  preserves (http_is H) (symbol_ticker w symbol).
Proof.
  intros s Hs. unfold http_is, symbol_ticker in *. simpl.
  rewrite http_calls_app, Hs. simpl. apply app_nil_r.
Qed.

Lemma now_http H : preserves (http_is H) (now w).
Proof.
  intros s Hs. unfold http_is, now in *. simpl.
  now rewrite app_nil_r.
Qed.

Lemma fetch_price_http H (a : string) (t : float) :
  preserves (http_is H) (fetch_price w a t).
Proof.
  unfold fetch_price.
  apply preserves_bind.
  - apply preserves_try_except.
    + apply preserves_bind; [apply symbol_ticker_http|].
      intros p. apply preserves_ret.
    + intros _. apply preserves_try_except.
      * apply preserves_bind; [apply symbol_ticker_http|]. intros p.
        apply preserves_bind; [apply symbol_ticker_http|]. intros q.
        apply preserves_ret.
      * intros _. apply preserves_ret.
  - intros [p|]; [|apply preserves_ret].
    apply preserves_bind; [|intros _; apply preserves_ret].
    intros s Hs. exact Hs.
Qed.

(** Resolving a price makes no request to the Simple Earn endpoints. *)
Lemma price_http H (a : string) :
  preserves (http_is H) (_get_current_price w a).
Proof.
  unfold _get_current_price.
  apply preserves_try_except; [|intros _; apply preserves_ret].
  apply preserves_bind; [apply now_http|]. intros t.
  apply preserves_bind; [intros s Hs; exact Hs|]. intros cache.
  destruct (cache !! a) as [[p t0]|].
  - destruct (_ <? _)%float; [apply preserves_ret | apply fetch_price_http].
  - apply fetch_price_http.
Qed.

Lemma bulk_row_http H (pt : string) (pos : position) :
  preserves (fun ls => http_is H (snd ls)) (bulk_row w pt pos).
Proof.
  unfold bulk_row.
  apply preserves_bind; [apply preserves_field|]. intros a.
  apply preserves_bind; [apply preserves_field|]. intros amount.
  destruct (gtb amount 0); [|apply preserves_ret].
  apply preserves_bind.
  { apply (preserves_lift_global (http_is H)), price_http. }
  intros p. destruct (gtb p 0); [|apply preserves_ret].
  apply preserves_bind; [apply preserves_field|]. intros rate.
  apply (preserves_append_global (http_is H)).
Qed.

Lemma targeted_row_http H (a pt : string) (pos : position) :
  preserves (fun ls => http_is H (snd ls)) (targeted_row w a pt pos).
Proof.
  unfold targeted_row.
  apply preserves_bind; [apply preserves_field|]. intros amount.
  destruct (gtb amount 0); [|apply preserves_ret].
  apply preserves_bind.
  { apply (preserves_lift_global (http_is H)), price_http. }
  intros p. destruct (gtb p 0); [|apply preserves_ret].
  apply preserves_bind; [apply preserves_field|]. intros rate.
  apply (preserves_append_global (http_is H)).
Qed.

Lemma bulk_row_only_Exception (pt : string) (pos : position) :
  raises_only_Exception (bulk_row w pt pos).
Proof.
  unfold bulk_row.
  apply only_Exception_bind; [apply only_Exception_field|]. intros a.
  apply only_Exception_bind; [apply only_Exception_field|]. intros amount.
  destruct (gtb amount 0); [|apply only_Exception_ret].
  apply only_Exception_bind.
  { apply only_Exception_never, never_raises_lift, price_never_raises. }
  intros p. destruct (gtb p 0); [|apply only_Exception_ret].
  apply only_Exception_bind; [apply only_Exception_field|]. intros rate.
  intros s e H. discriminate.
Qed.

Lemma targeted_row_only_Exception (a pt : string) (pos : position) :
  raises_only_Exception (targeted_row w a pt pos).
Proof.
  unfold targeted_row.
  apply only_Exception_bind; [apply only_Exception_field|]. intros amount.
  destruct (gtb amount 0); [|apply only_Exception_ret].
  apply only_Exception_bind.
  { apply only_Exception_never, never_raises_lift, price_never_raises. }
  intros p. destruct (gtb p 0); [|apply only_Exception_ret].
  apply only_Exception_bind; [apply only_Exception_field|]. intros rate.
  intros s e H. discriminate.
Qed.

End HttpFacts.

Lemma consult_http (s : state) (ev : event) :
  http_calls (log (consult [ev] s)) = http_calls (log s) ++ http_calls [ev].
Proof. unfold consult. simpl. apply http_calls_app. Qed.

Lemma bulk_rows_http w H (pt : string) (rows : list position) :
  preserves (http_is H)
    (with_local [] (bind (for_each rows (bulk_row w pt)) (fun _ => get_local))).
Proof.
  apply preserves_with_local.
  apply preserves_bind.
  - apply preserves_for_each. intros pos. apply bulk_row_http.
  - intros _. apply preserves_get_local.
Qed.

Lemma never_raises_get_local {L} : never_raises (@get_local L).
Proof. intros ls. now exists (fst ls). Qed.

Lemma only_Exception_with_local {L A} (l0 : L) (m : M (L * state) A) :
  raises_only_Exception m -> raises_only_Exception (with_local l0 m).
Proof.
  intros Hm s e. unfold with_local. specialize (Hm (l0, s) e).
  destruct (m (l0, s)) as [r ls]. exact Hm.
Qed.

Lemma bulk_rows_only_Exception w (pt : string) (rows : list position) :
  raises_only_Exception
    (with_local [] (bind (for_each rows (bulk_row w pt)) (fun _ => get_local))).
Proof.
  apply only_Exception_with_local, only_Exception_bind.
  - apply only_Exception_for_each. intros pos. apply bulk_row_only_Exception.
  - intros _. apply only_Exception_never, never_raises_get_local.
Qed.

Lemma bulk_attempts_calls w pt url attempts : forall l s,
  exists outs,
    http_calls (log (snd (snd (bulk_attempts w pt url attempts (l, s)))))
    = http_calls (log s) ++ map (fun o => (url, None, o)) outs
    /\ attempts_ok (length attempts) outs.
Proof.
  induction attempts as [|attempt rest IH]; intros l s.
  - exists []. simpl. rewrite app_nil_r. repeat split; [simpl; lia | constructor].
  - simpl. unfold bind at 1. unfold try_except_request, try_except. unfold bind at 1.
    unfold lift at 1, http_get. cbv zeta. cbn [fst snd].
    set (o := requests_get w (tick s) url None).
    set (s1 := consult [HttpCall url None o] s).
    assert (Hs1 : http_calls (log s1) = http_calls (log s) ++ [(url, None, o)])
      by apply consult_http.
    destruct o as [[|]|c rows|c e|] eqn:E; simpl.
    + destruct (IH l s1) as [outs [Hc Hok]]. exists (HttpRaises RequestException :: outs).
      split; [|now apply attempts_ok_retry].
      rewrite Hc, Hs1. simpl. now rewrite <- app_assoc.
    + exists [HttpRaises Exception]. split; [exact Hs1 | apply attempts_ok_one].
    + destruct (c =? 200)%Z eqn:Hc200.
      * unfold bind at 1. unfold lift at 1. simpl.
        pose proof (bulk_rows_http w _ pt rows s1 eq_refl) as Hrows.
        pose proof (bulk_rows_only_Exception w pt rows s1) as Hexn.
        destruct (with_local _ _ s1) as [[positions|e] s2]; simpl in *.
        -- exists [HttpResponse c rows]. split; [|apply attempts_ok_one].
           unfold http_is in Hrows. now rewrite Hrows.
        -- rewrite (Hexn e eq_refl). simpl.
           exists [HttpResponse c rows]. split; [|apply attempts_ok_one].
           unfold http_is in Hrows. now rewrite Hrows.
      * simpl. destruct (IH l s1) as [outs [Hc Hok]].
        exists (HttpResponse c rows :: outs).
        split; [|apply attempts_ok_retry; [simpl; now apply Z.eqb_neq | exact Hok]].
        rewrite Hc, Hs1. simpl. now rewrite <- app_assoc.
    + destruct (c =? 200)%Z eqn:Hc200; [destruct e|]; simpl;
        try rewrite Hc200; simpl.
      * destruct (IH l s1) as [outs [Hc Hok]].
        exists (HttpUnreadable c RequestException :: outs).
        split; [|apply attempts_ok_retry; [simpl; now right | exact Hok]].
        rewrite Hc, Hs1. simpl. now rewrite <- app_assoc.
      * exists [HttpUnreadable c Exception].
        split; [exact Hs1 | apply attempts_ok_one].
      * destruct (IH l s1) as [outs [Hc Hok]].
        exists (HttpUnreadable c e :: outs).
        split; [|apply attempts_ok_retry;
                  [simpl; left; now apply Z.eqb_neq | exact Hok]].
        rewrite Hc, Hs1. simpl. now rewrite <- app_assoc.
    + exists []. simpl. rewrite app_nil_r.
      split; [reflexivity | split; [simpl; lia | constructor]].
Qed.

Lemma targeted_rows_http w H (a pt : string) (rows : list position) :
  preserves (fun ls => http_is H (snd ls)) (for_each rows (targeted_row w a pt)).
Proof. apply preserves_for_each. intros pos. apply targeted_row_http. Qed.

Lemma targeted_attempts_calls w a pt url attempts : forall l s,
  exists outs,
    http_calls (log (snd (snd (targeted_attempts w a pt url attempts (l, s)))))
    = http_calls (log s) ++ map (fun o => (url, Some a, o)) outs
    /\ attempts_ok (length attempts) outs.
Proof.
  induction attempts as [|attempt rest IH]; intros l s.
  - exists []. simpl. rewrite app_nil_r. repeat split; [simpl; lia | constructor].
  - simpl. unfold bind at 1. unfold try_except_request, try_except. unfold bind at 1.
    unfold lift at 1, http_get. cbv zeta. cbn [fst snd].
    set (o := requests_get w (tick s) url (Some a)).
    set (s1 := consult [HttpCall url (Some a) o] s).
    assert (Hs1 : http_calls (log s1) = http_calls (log s) ++ [(url, Some a, o)])
      by apply consult_http.
    destruct o as [[|]|c rows|c e|] eqn:E; simpl.
    + destruct (IH l s1) as [outs [Hc Hok]]. exists (HttpRaises RequestException :: outs).
      split; [|now apply attempts_ok_retry].
      rewrite Hc, Hs1. simpl. now rewrite <- app_assoc.
    + exists [HttpRaises Exception]. split; [exact Hs1 | apply attempts_ok_one].
    + destruct (c =? 200)%Z eqn:Hc200.
      * unfold bind at 1.
        pose proof (targeted_rows_http w _ a pt rows (l, s1) eq_refl) as Hrows.
        pose proof (only_Exception_for_each rows _
                      (targeted_row_only_Exception w a pt) (l, s1)) as Hexn.
        destruct (for_each rows _ (l, s1)) as [[u|e] [l2 s2]]; simpl in *.
        -- exists [HttpResponse c rows]. split; [|apply attempts_ok_one].
           unfold http_is in Hrows. now rewrite Hrows.
        -- rewrite (Hexn e eq_refl). simpl.
           exists [HttpResponse c rows]. split; [|apply attempts_ok_one].
           unfold http_is in Hrows. now rewrite Hrows.
      * simpl. destruct (IH l s1) as [outs [Hc Hok]].
        exists (HttpResponse c rows :: outs).
        split; [|apply attempts_ok_retry; [simpl; now apply Z.eqb_neq | exact Hok]].
        rewrite Hc, Hs1. simpl. now rewrite <- app_assoc.
    + destruct (c =? 200)%Z eqn:Hc200; [destruct e|]; simpl;
        try rewrite Hc200; simpl.
      * destruct (IH l s1) as [outs [Hc Hok]].
        exists (HttpUnreadable c RequestException :: outs).
        split; [|apply attempts_ok_retry; [simpl; now right | exact Hok]].
        rewrite Hc, Hs1. simpl. now rewrite <- app_assoc.
      * exists [HttpUnreadable c Exception].
        split; [exact Hs1 | apply attempts_ok_one].
      * destruct (IH l s1) as [outs [Hc Hok]].
        exists (HttpUnreadable c e :: outs).
        split; [|apply attempts_ok_retry;
                  [simpl; left; now apply Z.eqb_neq | exact Hok]].
        rewrite Hc, Hs1. simpl. now rewrite <- app_assoc.
    + exists []. simpl. rewrite app_nil_r.
      split; [reflexivity | split; [simpl; lia | constructor]].
Qed.

Lemma bulk_endpoint_calls w (ep : string * string) (l : list holding) (s : state) :
  exists outs l' s',
    bulk_endpoint w ep (l, s) = (Ok tt, (l', s'))
    /\ http_calls (log s') = http_calls (log s) ++ map (fun o => (snd ep, None, o)) outs
    /\ attempts_ok 3 outs.
Proof.
  destruct (bulk_attempts_calls w (fst ep) (snd ep) (seq 0 3) l s) as [outs [Hc Hok]].
  unfold bulk_endpoint, try_except.
  destruct (bulk_attempts _ _ _ _ _) as [[[]|e] [l' s']]; simpl in *;
    exists outs, l', s'; auto.
Qed.

Lemma targeted_endpoint_calls w a (ep : string * string) (l : list holding) (s : state) :
  exists outs l' s',
    targeted_endpoint w a ep (l, s) = (Ok tt, (l', s'))
    /\ http_calls (log s') = http_calls (log s) ++ map (fun o => (snd ep, Some a, o)) outs
    /\ attempts_ok 2 outs.
Proof.
  destruct (targeted_attempts_calls w a (fst ep) (snd ep) (seq 0 2) l s) as [outs [Hc Hok]].
  unfold targeted_endpoint, try_except.
  destruct (targeted_attempts _ _ _ _ _ _) as [[[]|e] [l' s']]; simpl in *;
    exists outs, l', s'; auto.
Qed.

(** C8 (amended). The bulk discovery makes at most 3 requests to each
    product-type endpoint and the targeted lookup of an asset at most 2;
    in both, an attempt is followed by another one only if it ended in a
    [RequestException] (a network failure, or a 200 answer whose body is
    not JSON) or in a status other than 200, and nothing follows the last
    allowed attempt.  The requests of a run are read off the log of
    network calls. *)
Theorem retry_attempts_bounded (w : World) (s : state) :
  (exists flexible locked,
      http_calls (log (snd (_get_all_simple_earn_positions w s)))
      = http_calls (log s)
        ++ map (fun o => (FLEXIBLE_URL, None, o)) flexible
        ++ map (fun o => (LOCKED_URL, None, o)) locked
      /\ attempts_ok 3 flexible /\ attempts_ok 3 locked)
  /\ (forall asset,
       exists flexible locked,
         http_calls (log (snd (_get_simple_earn_asset_positions w asset s)))
         = http_calls (log s)
           ++ map (fun o => (FLEXIBLE_URL, Some asset, o)) flexible
           ++ map (fun o => (LOCKED_URL, Some asset, o)) locked
         /\ attempts_ok 2 flexible /\ attempts_ok 2 locked).
Proof.
  split.
  - destruct (bulk_endpoint_calls w ("FLEXIBLE", FLEXIBLE_URL) [] s)
      as (flexible & l1 & s1 & E1 & H1 & Hok1).
    destruct (bulk_endpoint_calls w ("LOCKED", LOCKED_URL) l1 s1)
      as (locked & l2 & s2 & E2 & H2 & Hok2).
    exists flexible, locked. split; [|now split].
    unfold _get_all_simple_earn_positions, with_local, try_except, endpoints.
    simpl. unfold bind. rewrite E1, E2. simpl.
    rewrite H2, H1. simpl. now rewrite <- app_assoc.
  - intros a.
    destruct (targeted_endpoint_calls w a ("FLEXIBLE", FLEXIBLE_URL) [] s)
      as (flexible & l1 & s1 & E1 & H1 & Hok1).
    destruct (targeted_endpoint_calls w a ("LOCKED", LOCKED_URL) l1 s1)
      as (locked & l2 & s2 & E2 & H2 & Hok2).
    exists flexible, locked. split; [|now split].
    unfold _get_simple_earn_asset_positions, with_local, try_except, endpoints.
    simpl. unfold bind. rewrite E1, E2. simpl.
    rewrite H2, H1. simpl. now rewrite <- app_assoc.
Qed.

(** ** Framing the local list *)

Lemma framed_ret {A B} (b : B) : framed (@ret (list A * state) B b).
Proof. intros l s. simpl. now rewrite app_nil_r. Qed.

Lemma framed_raise {A B} (e : exn) : framed (@raise (list A * state) B e).
Proof. intros l s. simpl. now rewrite app_nil_r. Qed.

Lemma framed_field {A B} (o : option B) : framed (@field (list A * state) B o).
Proof. destruct o; [apply framed_ret | apply framed_raise]. Qed.

Lemma framed_lift {A B} (m : M state B) : framed (@lift (list A) B m).
Proof.
  intros l s. unfold lift. simpl. destruct (m s) as [r s1]. simpl.
  now rewrite app_nil_r.
Qed.

Lemma framed_append {A} (x : A) : framed (append x).
Proof. intros l s. reflexivity. Qed.

Lemma framed_extend {A} (xs : list A) : framed (extend xs).
Proof. intros l s. reflexivity. Qed.

Lemma framed_bind {A B C} (m : M (list A * state) B)
    (k : B -> M (list A * state) C) :
  framed m -> (forall b, framed (k b)) -> framed (bind m k).
Proof.
  intros Hm Hk l s. unfold bind. rewrite (Hm l s).
  destruct (m ([], s)) as [[b|e] [l1 s1]]; simpl.
  - rewrite (Hk b (l ++ l1) s1), (Hk b l1 s1). simpl.
    now rewrite app_assoc.
  - reflexivity.
Qed.

Lemma framed_try_except {A B} (m : M (list A * state) B)
    (h : exn -> M (list A * state) B) :
  framed m -> (forall e, framed (h e)) -> framed (try_except m h).
Proof.
  intros Hm Hh l s. unfold try_except. rewrite (Hm l s).
  destruct (m ([], s)) as [[b|e] [l1 s1]]; simpl.
  - reflexivity.
  - rewrite (Hh e (l ++ l1) s1), (Hh e l1 s1). simpl.
    now rewrite app_assoc.
Qed.

Lemma framed_try_except_request {A B} (m h : M (list A * state) B) :
  framed m -> framed h -> framed (try_except_request m h).
Proof.
  intros Hm Hh. apply framed_try_except; [exact Hm|].
  intros [|]; [exact Hh | apply framed_raise].
Qed.

Lemma framed_for_each {A X} (xs : list X) (body : X -> M (list A * state) unit) :
  (forall x, framed (body x)) -> framed (for_each xs body).
Proof.
  intros Hbody. induction xs as [|x xs IH]; simpl.
  - apply framed_ret.
  - apply framed_bind; [apply Hbody | intros _; exact IH].
Qed.

Lemma bulk_attempts_framed w (pt url : string) (attempts : list nat) :
  framed (bulk_attempts w pt url attempts).
Proof.
  induction attempts as [|attempt rest IH]; simpl.
  - apply framed_ret.
  - apply framed_bind.
    + apply framed_try_except_request; [|apply framed_ret].
      apply framed_bind; [apply framed_lift|]. intros response.
      destruct (fst response =? 200)%Z; [|apply framed_ret].
      apply framed_bind; [apply framed_lift|]. intros positions.
      apply framed_bind; [apply framed_extend|]. intros _. apply framed_ret.
    + intros [|]; [apply framed_ret | exact IH].
Qed.

Lemma bulk_endpoint_framed w (ep : string * string) : framed (bulk_endpoint w ep).
Proof.
  apply framed_try_except; [apply bulk_attempts_framed|].
  intros _. apply framed_ret.
Qed.

Lemma bulk_endpoint_returns w (ep : string * string) (ls : list holding * state) :
  fst (bulk_endpoint w ep ls) = Ok tt.
Proof.
  unfold bulk_endpoint, try_except.
  destruct (bulk_attempts _ _ _ _ _) as [[[]|e] ls']; reflexivity.
Qed.

(** The bulk discovery returns what the flexible endpoint contributes
    followed by what the locked endpoint contributes. *)
Lemma bulk_discovery_decomposes (w : World) (s : state) :
  let flexible := endpoint_positions w ("FLEXIBLE", FLEXIBLE_URL) s in
  let locked := endpoint_positions w ("LOCKED", LOCKED_URL) (snd flexible) in
  _get_all_simple_earn_positions w s
  = (Ok (fst flexible ++ fst locked), snd locked).
Proof.
  unfold endpoint_positions.
  unfold _get_all_simple_earn_positions, with_local, try_except, endpoints.
  simpl. unfold bind.
  pose proof (bulk_endpoint_returns w ("FLEXIBLE", FLEXIBLE_URL) ([], s)) as R1.
  destruct (bulk_endpoint w ("FLEXIBLE", FLEXIBLE_URL) ([], s)) as [r1 [l1 s1]].
  simpl in *. subst r1.
  rewrite (bulk_endpoint_framed w ("LOCKED", LOCKED_URL) l1 s1).
  pose proof (bulk_endpoint_returns w ("LOCKED", LOCKED_URL) ([], s1)) as R2.
  destruct (bulk_endpoint w ("LOCKED", LOCKED_URL) ([], s1)) as [r2 [l2 s2]].
  simpl in *. subst r2. reflexivity.
Qed.

Lemma retryable_no_success (o : http_outcome) : retryable o -> no_success o.
Proof. destruct o as [[|]|c rows|c e|]; simpl; auto. Qed.

Lemma failed_attempts_add_nothing w (pt url : string) (attempts : list nat) :
  forall l s,
    (forall k, k < length attempts ->
               no_success (requests_get w (tick s + k) url None)) ->
    fst (snd (bulk_attempts w pt url attempts (l, s))) = l.
Proof.
  induction attempts as [|attempt rest IH]; intros l s Hfail.
  - reflexivity.
  - simpl. unfold bind at 1. unfold try_except_request, try_except.
    unfold bind at 1. unfold lift at 1, http_get. simpl.
    pose proof (Hfail 0 ltac:(simpl; lia)) as H0.
    rewrite Nat.add_0_r in H0.
    assert (Hrest : forall k, k < length rest ->
              no_success (requests_get w
                (tick (consult [HttpCall url None (requests_get w (tick s) url None)] s) + k)
                url None)).
    { intros k Hk. simpl. specialize (Hfail (S k) ltac:(simpl; lia)).
      now rewrite Nat.add_succ_r in Hfail. }
    destruct (requests_get w (tick s) url None) as [[|]|c rows|c e|];
      simpl in *.
    + now apply IH.
    + reflexivity.
    + destruct (c =? 200)%Z eqn:Hc; [apply Z.eqb_eq in Hc; contradiction|].
      simpl. now apply IH.
    + destruct (c =? 200)%Z eqn:Hc; [destruct e|]; simpl;
        try rewrite Hc; simpl; try reflexivity; now apply IH.
    + reflexivity.
Qed.

Lemma no_success_contributes_nothing w (pt url : string) (s : state) :
  (forall k, k < 3 -> no_success (requests_get w (tick s + k) url None)) ->
  fst (endpoint_positions w (pt, url) s) = [].
Proof.
  intros Hfail. unfold endpoint_positions, bulk_endpoint, try_except.
  pose proof (failed_attempts_add_nothing w pt url (seq 0 3) [] s Hfail) as H.
  change (fst (pt, url)) with pt. change (snd (pt, url)) with url.
  destruct (bulk_attempts w pt url (seq 0 3) ([], s)) as [[[]|e] [l' s']];
    exact H.
Qed.

Lemma total_failure_contributes_nothing w (pt url : string) (s : state) :
  total_failure w url s -> fst (endpoint_positions w (pt, url) s) = [].
Proof.
  intros Hfail. apply no_success_contributes_nothing.
  intros k Hk. apply retryable_no_success, Hfail, Hk.
Qed.

(** C10. Within the bulk discovery, when every attempt on one product-type
    endpoint fails, nothing of the other endpoint is lost: the operation
    returns exactly the positions the other endpoint contributes. *)
Theorem bulk_failure_keeps_other_endpoint (w : World) (s : state) :
  let flexible := endpoint_positions w ("FLEXIBLE", FLEXIBLE_URL) s in
  let locked := endpoint_positions w ("LOCKED", LOCKED_URL) (snd flexible) in
  (total_failure w FLEXIBLE_URL s ->
   fst (_get_all_simple_earn_positions w s) = Ok (fst locked))
  /\ (total_failure w LOCKED_URL (snd flexible) ->
      fst (_get_all_simple_earn_positions w s) = Ok (fst flexible)).
Proof.
  intros flexible locked.
  pose proof (bulk_discovery_decomposes w s) as H. simpl in H.
  fold flexible in H. fold locked in H. rewrite H. simpl.
  split; intros Hfail.
  - unfold flexible.
    now rewrite (total_failure_contributes_nothing w _ _ s Hfail).
  - unfold locked.
    rewrite (total_failure_contributes_nothing w _ _ _ Hfail).
    now rewrite app_nil_r.
Qed.

(** ** The price resolver *)

Lemma price_on_miss (w : World) (asset : string) (s : state) :
  cache_miss w asset s ->
  _get_current_price w asset s
  = try_except (fetch_price w asset (clock_at w s)) (fun _ => ret 0%float)
      (consult [] s).
Proof.
  unfold cache_miss, _get_current_price, try_except, bind, now, price_cache,
    clock_at.
  simpl. intros Hmiss.
  destruct (_price_cache s !! asset) as [[p t]|]; [|reflexivity].
  now rewrite Hmiss.
Qed.

Lemma unresolvable_price (w : World) (asset : string) (s : state) :
  unresolvable w asset s ->
  exists s', _get_current_price w asset s = (Ok 0%float, s')
             /\ _price_cache s' = _price_cache s.
Proof.
  intros (Hmiss & Hdirect & Hbridge).
  rewrite (price_on_miss w asset s Hmiss).
  unfold direct_pair, bridge_hop, bridge_to_settlement in *.
  unfold try_except, fetch_price, bind, try_except, symbol_ticker. simpl.
  rewrite Hdirect. simpl.
  destruct (get_symbol_ticker w (S (S (tick s))) (asset ++ "BTC")%string)
    as [b1|]; simpl.
  - destruct Hbridge as [Hb|Hb]; [discriminate|]. rewrite Hb. simpl.
    eexists. split; reflexivity.
  - eexists. split; reflexivity.
Qed.

(** C4. A cache entry younger than 300 seconds is returned as it is, and
    the resolution makes no network call: the log of calls, and the cache,
    are what they were. *)
Theorem fresh_cache_entry_returned (w : World) (asset : string) (s : state)
    (cached_price cached_time : float) :
  _price_cache s !! asset = Some (cached_price, cached_time) ->
  (time_time w (tick s) - cached_time <? 300)%float = true ->
  fst (_get_current_price w asset s) = Ok cached_price
  /\ log (snd (_get_current_price w asset s)) = log s
  /\ _price_cache (snd (_get_current_price w asset s)) = _price_cache s.
Proof.
  intros Hentry Hfresh.
  unfold _get_current_price, try_except, bind, now, price_cache. simpl.
  rewrite Hentry, Hfresh. simpl. rewrite app_nil_r. auto.
Qed.

(** C5. When the cache does not answer and the direct pair fails, the
    resolver returns the product of the two hops if both succeed, and 0.0
    (nothing cached) if either fails. *)
Theorem bridge_price_is_product (w : World) (asset : string) (s : state) :
  cache_miss w asset s ->
  direct_pair w asset s = None ->
  match bridge_hop w asset s, bridge_to_settlement w s with
  | Some bridgePrice, Some bridgeToSettlementPrice =>
      fst (_get_current_price w asset s)
      = Ok (bridgePrice * bridgeToSettlementPrice)%float
  | _, _ =>
      fst (_get_current_price w asset s) = Ok 0%float
      /\ _price_cache (snd (_get_current_price w asset s)) = _price_cache s
  end.
Proof.
  intros Hmiss Hdirect.
  destruct (bridge_hop w asset s) as [b1|] eqn:E1;
    [destruct (bridge_to_settlement w s) as [b2|] eqn:E2|].
  - rewrite (price_on_miss w asset s Hmiss).
    unfold direct_pair, bridge_hop, bridge_to_settlement in *.
    unfold try_except, fetch_price, bind, try_except, symbol_ticker. simpl.
    rewrite Hdirect. simpl. rewrite E1. simpl. rewrite E2. reflexivity.
  - destruct (unresolvable_price w asset s) as (s' & Hrun & Hcache).
    { repeat split; auto. }
    rewrite Hrun. auto.
  - destruct (unresolvable_price w asset s) as (s' & Hrun & Hcache).
    { repeat split; auto. }
    rewrite Hrun. auto.
Qed.

(** C3. When both the direct pair and the two-hop path fail, the resolver
    returns 0.0 without raising, and each caller (the spot loop, the bulk
    rows loop, the targeted rows loop) appends nothing for that asset and
    goes on with the remaining items. *)
Theorem unresolvable_price_skips_asset (w : World) (asset : string)
    (s : state) :
  unresolvable w asset s ->
  exists s',
    _get_current_price w asset s = (Ok 0%float, s')
    /\ (forall free locked rest spot_data,
          String.prefix "LD" asset = false ->
          gtb (free + locked) 0 = true ->
          for_each (mk_balance (Some asset) (Some free) (Some locked) :: rest)
            (spot_balance w) (spot_data, s)
          = for_each rest (spot_balance w) (spot_data, s'))
    /\ (forall product_type amount rate rest positions,
          gtb amount 0 = true ->
          for_each (mk_position (Some asset) (Some amount) rate :: rest)
            (bulk_row w product_type) (positions, s)
          = for_each rest (bulk_row w product_type) (positions, s'))
    /\ (forall product_type row_asset amount rate rest positions,
          gtb amount 0 = true ->
          for_each (mk_position row_asset (Some amount) rate :: rest)
            (targeted_row w asset product_type) (positions, s)
          = for_each rest (targeted_row w asset product_type) (positions, s')).
Proof.
  intros Hfail. destruct (unresolvable_price w asset s Hfail) as (s' & Hrun & _).
  exists s'. split; [exact Hrun|]. repeat split.
  - intros free locked rest spot_data HLD Hpos.
    simpl. unfold bind at 1. unfold spot_balance. simpl.
    unfold bind at 1. simpl. rewrite HLD.
    unfold bind at 1. simpl. unfold bind at 1. simpl.
    rewrite Hpos. unfold bind at 1. unfold lift at 1. simpl.
    rewrite Hrun. reflexivity.
  - intros pt amount rate rest positions Hpos.
    simpl. unfold bind at 1. unfold bulk_row. simpl.
    unfold bind at 1. simpl. unfold bind at 1. simpl.
    rewrite Hpos. unfold bind at 1. unfold lift at 1. simpl.
    rewrite Hrun. reflexivity.
  - intros pt row_asset amount rate rest positions Hpos.
    simpl. unfold bind at 1. unfold targeted_row. simpl.
    unfold bind at 1. simpl.
    rewrite Hpos. unfold bind at 1. unfold lift at 1. simpl.
    rewrite Hrun. reflexivity.
Qed.

(** ** The spot wallet source *)

Lemma spot_balance_emits (w : World) (b : balance) :
  preserves (fun ls => Forall spot_emitted (fst ls)) (spot_balance w b).
Proof.
  unfold spot_balance.
  apply preserves_bind; [apply preserves_field|]. intros a.
  destruct (String.prefix "LD" a) eqn:HLD; [apply preserves_ret|].
  apply preserves_bind; [apply preserves_field|]. intros free.
  apply preserves_bind; [apply preserves_field|]. intros locked.
  destruct (gtb _ 0); [|apply preserves_ret].
  apply preserves_bind.
  { apply (preserves_lift_local (Forall spot_emitted)). }
  intros p. destruct (gtb p 0); [|apply preserves_ret].
  apply preserves_append_Forall. split; [exact HLD | reflexivity].
Qed.

Lemma spot_data_emitted (w : World) (s : state) :
  exists spot_data s',
    _get_spot_data w s = (Ok spot_data, s') /\ Forall spot_emitted spot_data.
Proof.
  unfold _get_spot_data, with_local, try_except.
  unfold bind at 1. unfold lift at 1, account_balances. simpl.
  destruct (get_account w (tick s)) as [balances|]; simpl.
  - unfold bind.
    pose proof (preserves_for_each (fun ls => Forall spot_emitted (fst ls))
                  balances (spot_balance w) (spot_balance_emits w)
                  ([], consult [AccountCall] s) ltac:(constructor)) as Hinv.
    destruct (for_each balances (spot_balance w) _) as [[[]|e] [l s1]];
      simpl in *.
    + now exists l, s1.
    + exists [], s1. split; [reflexivity | constructor].
  - eexists [], _. split; [reflexivity | constructor].
Qed.

(** C9. A balance whose asset starts with "LD" is passed over by the spot
    loop whatever its amounts are (they are not even read and no price is
    asked), so no holding of [_get_spot_data] has such an asset. *)
Theorem LD_prefixed_balances_never_reported (w : World) (s : state) :
  (forall balance asset rest spot_data s0,
      balance_asset balance = Some asset ->
      String.prefix "LD" asset = true ->
      for_each (balance :: rest) (spot_balance w) (spot_data, s0)
      = for_each rest (spot_balance w) (spot_data, s0))
  /\ exists spot_data s',
      _get_spot_data w s = (Ok spot_data, s')
      /\ Forall (fun h => String.prefix "LD" (asset h) = false) spot_data.
Proof.
  split.
  - intros balance a rest spot_data s0 Hasset HLD.
    simpl. unfold bind at 1. unfold spot_balance.
    rewrite Hasset. simpl. unfold bind at 1. simpl. rewrite HLD. reflexivity.
  - destruct (spot_data_emitted w s) as (spot_data & s' & Hrun & Hall).
    exists spot_data, s'. split; [exact Hrun|].
    eapply List.Forall_impl; [|exact Hall]. intros h [H _]. exact H.
Qed.

(** ** Reconciliation of the two discovery strategies *)

Lemma filter_both {A} (f g : A -> bool) (l : list A) :
  List.filter f (List.filter g l) = List.filter (fun x => g x && f x) l.
Proof.
  induction l as [|x l IH]; simpl; [reflexivity|].
  destruct (g x); simpl; [destruct (f x)|]; now rewrite IH.
Qed.

Lemma filter_swap {A} (f g : A -> bool) (l : list A) :
  List.filter f (List.filter g l) = List.filter g (List.filter f l).
Proof.
  rewrite !filter_both. apply List.filter_ext. intros x. apply andb_comm.
Qed.

Lemma filter_absorb {A} (f g : A -> bool) (l : list A) :
  (forall x, f x = true -> g x = true) ->
  List.filter f (List.filter g l) = List.filter f l.
Proof.
  intros H. rewrite filter_both. apply List.filter_ext. intros x.
  specialize (H x). destruct (f x), (g x); simpl; auto.
Qed.

Lemma filter_all {A} (l : list A) : List.filter (fun _ => true) l = l.
Proof. induction l as [|x l IH]; simpl; [reflexivity | now rewrite IH]. Qed.

(** Deduplication commutes with any selection made on the asset symbol. *)
Lemma dedup_first_filter (p : string -> bool) (l : list holding) :
  dedup_first (List.filter (fun h => p (asset h)) l)
  = List.filter (fun h => p (asset h)) (dedup_first l).
Proof.
  induction l as [|x l IH]; simpl; [reflexivity|].
  destruct (p (asset x)) eqn:Hx; simpl.
  - rewrite IH. f_equal. apply filter_swap.
  - rewrite IH. symmetry. apply filter_absorb.
    intros y Hy. unfold other_asset.
    destruct (String.eqb_spec (asset y) (asset x)) as [Heq|]; [|reflexivity].
    rewrite Heq in Hy. congruence.
Qed.

(** The loop of the source computes the specified deduplication. *)
Lemma remove_duplicates_spec (earn_data : list holding) :
  forall unique_earn_data (seen_assets : gset string),
    remove_duplicates earn_data unique_earn_data seen_assets
    = unique_earn_data
      ++ dedup_first
           (List.filter (fun h => bool_decide (asset h ∉ seen_assets)) earn_data).
Proof.
  induction earn_data as [|item rest IH]; intros acc seen; simpl.
  - now rewrite app_nil_r.
  - destruct (decide (asset item ∈ seen)) as [Hin|Hout].
    + rewrite bool_decide_eq_false_2 by tauto. apply IH.
    + rewrite bool_decide_eq_true_2 by exact Hout. simpl.
      rewrite IH, <- app_assoc. simpl. do 2 f_equal.
      rewrite <- (dedup_first_filter
                    (fun a => negb (String.eqb a (asset item)))).
      f_equal. rewrite filter_both. apply List.filter_ext. intros h.
      destruct (String.eqb_spec (asset h) (asset item)) as [Heq|Hne]; simpl.
      * rewrite andb_false_r. apply bool_decide_eq_false_2.
        rewrite elem_of_union, elem_of_singleton. tauto.
      * rewrite andb_true_r. apply bool_decide_ext.
        rewrite elem_of_union, elem_of_singleton. tauto.
Qed.

Lemma remove_duplicates_dedup_first (earn_data : list holding) :
  remove_duplicates earn_data [] ∅ = dedup_first earn_data.
Proof.
  rewrite remove_duplicates_spec. simpl. f_equal.
  rewrite <- (filter_all earn_data) at 2. apply List.filter_ext.
  intros h. apply bool_decide_eq_true_2. apply not_elem_of_empty.
Qed.

Lemma NoDup_map_filter {A B} (f : A -> B) (g : A -> bool) (l : list A) :
  List.NoDup (map f l) -> List.NoDup (map f (List.filter g l)).
Proof.
  induction l as [|x l IH]; simpl; intros H; [exact H|].
  inversion H as [|? ? Hnotin Hrest]; subst.
  destruct (g x); simpl; [|now apply IH].
  constructor; [|now apply IH].
  intros Hin. apply Hnotin. apply in_map_iff in Hin.
  destruct Hin as (y & Hy & Hin). apply in_map_iff. exists y.
  split; [exact Hy|]. apply List.filter_In in Hin. tauto.
Qed.

Lemma dedup_first_NoDup (l : list holding) :
  List.NoDup (map asset (dedup_first l)).
Proof.
  induction l as [|x l IH]; simpl; constructor.
  - intros Hin. apply in_map_iff in Hin. destruct Hin as (y & Hy & Hin).
    apply List.filter_In in Hin. destruct Hin as [_ Hother].
    unfold other_asset in Hother. rewrite Hy, String.eqb_refl in Hother.
    discriminate.
  - now apply NoDup_map_filter.
Qed.

(** What of Strategy B survives next to Strategy A: the first occurrence
    of each asset that Strategy A did not report. *)
Lemma reconcile_split (strategy_A strategy_B : list holding) :
  reconcile strategy_A strategy_B
  = dedup_first strategy_A
    ++ List.filter (fun h => not_in (asset h) (map asset strategy_A))
         (dedup_first strategy_B).
Proof.
  unfold reconcile. induction strategy_A as [|x A IH]; simpl.
  - now rewrite filter_all.
  - f_equal. rewrite IH, List.filter_app. f_equal.
    rewrite filter_both. apply List.filter_ext. intros h.
    unfold not_in, other_asset. simpl.
    rewrite negb_orb. apply andb_comm.
Qed.

Lemma asset_positions_never_raises (w : World) (a : string) :
  never_raises (_get_simple_earn_asset_positions w a).
Proof.
  apply never_raises_with_local, never_raises_try_except.
  intros e. apply never_raises_ret.
Qed.

Lemma all_positions_never_raises (w : World) :
  never_raises (_get_all_simple_earn_positions w).
Proof.
  apply never_raises_with_local, never_raises_try_except.
  intros e. apply never_raises_ret.
Qed.

Lemma extend_if_truthy (xs l : list holding) (s : state) :
  (if truthy xs then extend xs else ret tt) (l, s) = (Ok tt, (l ++ xs, s)).
Proof.
  destruct xs as [|x xs]; simpl; [|reflexivity].
  unfold ret. now rewrite app_nil_r.
Qed.

Lemma search_missing_discovers (w : World) (missing_assets : list string) :
  forall earn_data s,
    for_each missing_assets (search_missing w) (earn_data, s)
    = (Ok tt, (earn_data ++ fst (targeted_discovery w missing_assets s),
               snd (targeted_discovery w missing_assets s))).
Proof.
  induction missing_assets as [|a rest IH]; intros earn_data s; simpl.
  - unfold ret. now rewrite app_nil_r.
  - unfold bind at 1. unfold search_missing. unfold bind at 1.
    unfold lift at 1. simpl.
    destruct (never_raises_run (_get_simple_earn_asset_positions w a) s
                (asset_positions_never_raises w a)) as (found & s1 & Hrun).
    rewrite Hrun. rewrite extend_if_truthy. rewrite IH.
    destruct (targeted_discovery w rest s1) as [more s2]. simpl.
    now rewrite app_assoc.
Qed.

(** [_get_earn_data] runs the bulk discovery, then the targeted lookups
    of the known assets that the bulk results lack, and returns the
    reconciliation of the two. *)
Lemma earn_data_run (w : World) (s : state) :
  exists strategy_A s1,
    _get_all_simple_earn_positions w s = (Ok strategy_A, s1)
    /\ let missing_assets :=
         List.filter (fun a => not_in a (map asset strategy_A)) known_assets in
       let strategy_B := targeted_discovery w missing_assets s1 in
       _get_earn_data w s
       = (Ok (reconcile strategy_A (fst strategy_B)), snd strategy_B).
Proof.
  destruct (never_raises_run (_get_all_simple_earn_positions w) s
              (all_positions_never_raises w)) as (A & s1 & Hrun).
  exists A, s1. split; [exact Hrun|]. cbv zeta.
  unfold _get_earn_data, with_local, try_except.
  generalize known_assets. intros known.
  unfold bind at 1. unfold lift at 1. cbn [fst snd]. rewrite Hrun.
  unfold bind at 1. rewrite extend_if_truthy.
  unfold bind at 1. unfold get_local at 1. cbn [fst snd app].
  set (missing := List.filter _ known).
  unfold bind at 1.
  assert (Hloop : (if truthy missing
                   then for_each missing (search_missing w)
                   else ret tt) (A, s1)
                  = (Ok tt, (A ++ fst (targeted_discovery w missing s1),
                             snd (targeted_discovery w missing s1)))).
  { destruct missing as [|a rest] eqn:Hm.
    - simpl. unfold ret. now rewrite app_nil_r.
    - change (truthy (a :: rest)) with true. cbv iota.
      apply search_missing_discovers. }
  rewrite Hloop. unfold bind, get_local, ret. simpl.
  now rewrite remove_duplicates_dedup_first.
Qed.

(** C6. [_get_earn_data] returns the reconciliation of the two strategies:
    the bulk results followed by the targeted results, deduplicated by
    asset with the first occurrence kept.  The loop of the source computes
    that deduplication, an entry of Strategy B survives only if Strategy A
    did not report its asset, and on A = [BTC:1, ETH:2], B = [ETH:5, SOL:3]
    the result is [BTC:1, ETH:2, SOL:3]. *)
Theorem earn_data_is_reconciliation (w : World) (s : state) :
  (exists strategy_A s1,
      _get_all_simple_earn_positions w s = (Ok strategy_A, s1)
      /\ let missing_assets :=
           List.filter (fun a => not_in a (map asset strategy_A)) known_assets in
         let strategy_B := targeted_discovery w missing_assets s1 in
         _get_earn_data w s
         = (Ok (reconcile strategy_A (fst strategy_B)), snd strategy_B))
  /\ (forall strategy_A strategy_B,
         remove_duplicates (strategy_A ++ strategy_B) [] ∅
         = reconcile strategy_A strategy_B)
  /\ (forall strategy_A strategy_B,
         reconcile strategy_A strategy_B
         = dedup_first strategy_A
           ++ List.filter (fun h => not_in (asset h) (map asset strategy_A))
                (dedup_first strategy_B))
  /\ (forall strategy_A strategy_B,
         List.NoDup (map asset (reconcile strategy_A strategy_B)))
  /\ (let pos := fun a q => earn_holding a q 1 "FLEXIBLE" 0 in
      remove_duplicates
        ([pos "BTC" 1%float; pos "ETH" 2%float]
           ++ [pos "ETH" 5%float; pos "SOL" 3%float]) [] ∅
      = [pos "BTC" 1%float; pos "ETH" 2%float; pos "SOL" 3%float]).
Proof.
  split; [|split; [|split; [|split]]].
  - apply earn_data_run.
  - intros A B. apply remove_duplicates_dedup_first.
  - apply reconcile_split.
  - intros A B. apply dedup_first_NoDup.
  - vm_compute. reflexivity.
Qed.

(** ** Sorting by value *)

Lemma chain_desc_descending (l : list holding) :
  chain_desc l -> descending l.
Proof.
  induction 1 as [|x|x y l Hxy Hchain IH]; intros i a b Ha Hb.
  - discriminate.
  - destruct i; discriminate.
  - destruct i as [|i]; simpl in *.
    + congruence.
    + exact (IH i a b Ha Hb).
Qed.

Lemma insert_desc_chain (x : holding) (l : list holding) :
  above_dust x -> Forall above_dust l -> chain_desc l ->
  chain_desc (insert_desc x l).
Proof.
  intros Hx Hl Hchain.
  induction Hchain as [|y|y z l Hyz Hchain IH]; simpl.
  - constructor.
  - apply Forall_cons in Hl as [Hy _].
    destruct (current_value x <? current_value y)%float eqn:Hlt.
    + constructor; [now apply ltb_geb | constructor].
    + constructor; [|constructor].
      now apply (not_ltb_geb 1).
  - apply Forall_cons in Hl as [Hy Hl].
    destruct (current_value x <? current_value y)%float eqn:Hlt.
    + specialize (IH Hl). simpl in IH.
      destruct (current_value x <? current_value z)%float eqn:Hlt2.
      * now constructor.
      * constructor; [now apply ltb_geb | exact IH].
    + constructor; [|now constructor].
      now apply (not_ltb_geb 1).
Qed.

Lemma insert_desc_perm (x : holding) (l : list holding) :
  Permutation (insert_desc x l) (x :: l).
Proof.
  induction l as [|y l IH]; simpl; [reflexivity|].
  destruct (_ <? _)%float; [|reflexivity].
  rewrite IH. apply perm_swap.
Qed.

Lemma sort_desc_perm (l : list holding) : Permutation (sort_desc l) l.
Proof.
  induction l as [|x l IH]; simpl; [reflexivity|].
  rewrite insert_desc_perm. now constructor.
Qed.

Lemma sort_desc_chain (l : list holding) :
  Forall above_dust l -> chain_desc (sort_desc l).
Proof.
  induction l as [|x l IH]; simpl; intros Hl; [constructor|].
  apply Forall_cons in Hl as [Hx Hl].
  apply insert_desc_chain; [exact Hx| |now apply IH].
  eapply Permutation_Forall; [|exact Hl]. symmetry. apply sort_desc_perm.
Qed.

Lemma insert_desc_stable (v : float) (x : holding) (l : list holding) :
  with_value v (insert_desc x l) = with_value v (x :: l).
Proof.
  unfold with_value. induction l as [|y l IH]; simpl; [reflexivity|].
  destruct (current_value x <? current_value y)%float eqn:Hlt; [|reflexivity].
  simpl. rewrite IH. simpl.
  destruct (v =? current_value x)%float eqn:Hx; [|reflexivity].
  now rewrite (eqb_ltb_neq _ _ _ Hx Hlt).
Qed.

Lemma sort_desc_stable (v : float) (l : list holding) :
  with_value v (sort_desc l) = with_value v l.
Proof.
  induction l as [|x l IH]; simpl; [reflexivity|].
  rewrite insert_desc_stable. unfold with_value in *. simpl. now rewrite IH.
Qed.

(** ** The aggregator *)

Lemma spot_data_never_raises (w : World) : never_raises (_get_spot_data w).
Proof.
  apply never_raises_with_local, never_raises_try_except.
  intros e. apply never_raises_ret.
Qed.

Lemma earn_data_never_raises (w : World) : never_raises (_get_earn_data w).
Proof.
  apply never_raises_with_local, never_raises_try_except.
  intros e. apply never_raises_ret.
Qed.

(** [get_portfolio_data] always returns: the sorted, filtered
    concatenation of what the two sources return. *)
Lemma portfolio_run (w : World) (s : state) :
  exists spot_data s1 earn_data s2,
    _get_spot_data w s = (Ok spot_data, s1)
    /\ _get_earn_data w s1 = (Ok earn_data, s2)
    /\ get_portfolio_data w s
       = (Ok (sort_desc (displayed (spot_data ++ earn_data))), s2).
Proof.
  destruct (never_raises_run _ s (spot_data_never_raises w))
    as (spot_data & s1 & Hspot).
  destruct (never_raises_run _ s1 (earn_data_never_raises w))
    as (earn_data & s2 & Hearn).
  exists spot_data, s1, earn_data, s2. repeat split; auto.
  unfold get_portfolio_data, try_except, bind. now rewrite Hspot, Hearn.
Qed.

Lemma displayed_above_dust (l : list holding) : Forall above_dust (displayed l).
Proof.
  apply List.Forall_forall. intros h Hin. unfold displayed in Hin.
  apply List.filter_In in Hin. exact (proj2 Hin).
Qed.

(** C7. The list returned by [get_portfolio_data] is in descending order
    of value at every adjacent pair, and the sort is stable: it is a
    rearrangement of the filtered list in which the entries of any one
    value keep their order. *)
Theorem portfolio_sorted_descending_stable (w : World) (s : state) :
  exists spot_data s1 earn_data s2 portfolio,
    _get_spot_data w s = (Ok spot_data, s1)
    /\ _get_earn_data w s1 = (Ok earn_data, s2)
    /\ get_portfolio_data w s = (Ok portfolio, s2)
    /\ descending portfolio
    /\ Permutation portfolio (displayed (spot_data ++ earn_data))
    /\ forall v, with_value v portfolio
                 = with_value v (displayed (spot_data ++ earn_data)).
Proof.
  destruct (portfolio_run w s)
    as (spot_data & s1 & earn_data & s2 & Hspot & Hearn & Hrun).
  exists spot_data, s1, earn_data, s2, (sort_desc (displayed (spot_data ++ earn_data))).
  repeat split; auto.
  - apply chain_desc_descending, sort_desc_chain, displayed_above_dust.
  - apply sort_desc_perm.
  - intros v. apply sort_desc_stable.
Qed.

(** ** What the Simple Earn source emits *)

Lemma preserves_bind_yields {Σ A B} (I : Σ -> Prop) (Q : A -> Prop)
    (m : M Σ A) (k : A -> M Σ B) :
  preserves I m -> yields Q m -> (forall a, Q a -> preserves I (k a)) ->
  preserves I (bind m k).
Proof.
  intros Hm HQ Hk s Hs. unfold bind. specialize (Hm s Hs).
  specialize (HQ s).
  destruct (m s) as [[a|e] s1]; simpl in *.
  - apply Hk; [now apply HQ | exact Hm].
  - exact Hm.
Qed.

Lemma yields_lift {L A} (Q : A -> Prop) (m : M state A) :
  yields Q m -> yields Q (@lift L A m).
Proof.
  intros Hm [l s] a. unfold lift. simpl. specialize (Hm s a).
  destruct (m s) as [r s1]. exact Hm.
Qed.

(** A block that fills a fresh local list and returns it: what holds of
    the list throughout holds of the value returned. *)
Lemma yields_local_list {A} (P : list A -> Prop)
    (m : M (list A * state) unit) :
  P [] -> preserves (fun ls => P (fst ls)) m ->
  yields P (with_local [] (bind m (fun _ => get_local))).
Proof.
  intros Hnil Hm s a. unfold with_local, bind, get_local.
  specialize (Hm ([], s) Hnil).
  destruct (m ([], s)) as [[[]|e] ls]; simpl in *; congruence.
Qed.

(** The same block under [try: ... except Exception: return []]. *)
Lemma yields_local_list_or_nil {A} (P : list A -> Prop)
    (m : M (list A * state) unit) :
  P [] -> preserves (fun ls => P (fst ls)) m ->
  yields P (with_local []
              (try_except (bind m (fun _ => get_local)) (fun _ => ret []))).
Proof.
  intros Hnil Hm s a. unfold with_local, try_except, bind, get_local.
  specialize (Hm ([], s) Hnil).
  destruct (m ([], s)) as [[[]|e] ls]; simpl in *; congruence.
Qed.

Section EarnSource.

Variable w : World.

Lemma bulk_row_emits (pt : string) (pos : position) :
  preserves (fun ls => Forall earn_emitted (fst ls)) (bulk_row w pt pos).
Proof.
  unfold bulk_row.
  apply preserves_bind; [apply preserves_field|]. intros a.
  apply preserves_bind; [apply preserves_field|]. intros amount.
  destruct (gtb amount 0); [|apply preserves_ret].
  apply preserves_bind.
  { apply (preserves_lift_local (Forall earn_emitted)). }
  intros p. destruct (gtb p 0); [|apply preserves_ret].
  apply preserves_bind; [apply preserves_field|]. intros rate.
  now apply preserves_append_Forall.
Qed.

Lemma targeted_row_emits (a pt : string) (pos : position) :
  preserves (fun ls => Forall earn_emitted (fst ls)) (targeted_row w a pt pos).
Proof.
  unfold targeted_row.
  apply preserves_bind; [apply preserves_field|]. intros amount.
  destruct (gtb amount 0); [|apply preserves_ret].
  apply preserves_bind.
  { apply (preserves_lift_local (Forall earn_emitted)). }
  intros p. destruct (gtb p 0); [|apply preserves_ret].
  apply preserves_bind; [apply preserves_field|]. intros rate.
  now apply preserves_append_Forall.
Qed.

Lemma bulk_attempts_emit (pt url : string) (attempts : list nat) :
  preserves (fun ls => Forall earn_emitted (fst ls))
    (bulk_attempts w pt url attempts).
Proof.
  induction attempts as [|attempt rest IH]; simpl.
  - apply preserves_ret.
  - apply preserves_bind; [|intros [|]; [apply preserves_ret | exact IH]].
    apply preserves_try_except_request; [|apply preserves_ret].
    apply preserves_bind.
    { apply (preserves_lift_local (Forall earn_emitted)). }
    intros response. destruct (fst response =? 200)%Z; [|apply preserves_ret].
    apply (preserves_bind_yields _ (Forall earn_emitted)).
    + apply (preserves_lift_local (Forall earn_emitted)).
    + apply yields_lift, yields_local_list; [constructor|].
      apply preserves_for_each. intros pos. apply bulk_row_emits.
    + intros positions Hpos.
      apply preserves_bind; [|intros _; apply preserves_ret].
      now apply preserves_extend_Forall.
Qed.

Lemma targeted_attempts_emit (a pt url : string) (attempts : list nat) :
  preserves (fun ls => Forall earn_emitted (fst ls))
    (targeted_attempts w a pt url attempts).
Proof.
  induction attempts as [|attempt rest IH]; simpl.
  - apply preserves_ret.
  - apply preserves_bind; [|intros [|]; [apply preserves_ret | exact IH]].
    apply preserves_try_except_request; [|apply preserves_ret].
    apply preserves_bind.
    { apply (preserves_lift_local (Forall earn_emitted)). }
    intros response. destruct (fst response =? 200)%Z; [|apply preserves_ret].
    apply preserves_bind; [|intros _; apply preserves_ret].
    apply preserves_for_each. intros pos. apply targeted_row_emits.
Qed.

Lemma all_positions_emitted :
  yields (Forall earn_emitted) (_get_all_simple_earn_positions w).
Proof.
  apply yields_local_list_or_nil; [constructor|].
  apply preserves_for_each. intros ep.
  apply preserves_try_except; [apply bulk_attempts_emit|].
  intros _. apply preserves_ret.
Qed.

Lemma asset_positions_emitted (a : string) :
  yields (Forall earn_emitted) (_get_simple_earn_asset_positions w a).
Proof.
  apply yields_local_list_or_nil; [constructor|].
  apply preserves_for_each. intros ep.
  apply preserves_try_except; [apply targeted_attempts_emit|].
  intros _. apply preserves_ret.
Qed.

Lemma targeted_discovery_emitted (missing_assets : list string) :
  forall s, Forall earn_emitted (fst (targeted_discovery w missing_assets s)).
Proof.
  induction missing_assets as [|a rest IH]; intros s; simpl; [constructor|].
  pose proof (asset_positions_emitted a s) as Hfound.
  destruct (_get_simple_earn_asset_positions w a s) as [r s1].
  specialize (IH s1). destruct (targeted_discovery w rest s1) as [more s2].
  simpl in *. apply Forall_app. split; [|exact IH].
  destruct r as [found|e]; [now apply Hfound | constructor].
Qed.

End EarnSource.

Lemma dedup_first_incl (l : list holding) (h : holding) :
  In h (dedup_first l) -> In h l.
Proof.
  revert h. induction l as [|x l IH]; simpl; intros h; [tauto|].
  intros [Heq|Hin]; [now left|]. right. apply IH.
  apply List.filter_In in Hin. tauto.
Qed.

(** [_get_earn_data] always returns; its holdings are Simple Earn
    holdings and no two of them have the same asset. *)
Lemma earn_data_unique (w : World) (s : state) :
  exists earn_data s',
    _get_earn_data w s = (Ok earn_data, s')
    /\ Forall earn_emitted earn_data
    /\ List.NoDup (map asset earn_data).
Proof.
  destruct (earn_data_run w s) as (A & s1 & HA & Hrun). cbv zeta in Hrun.
  eexists _, _. split; [exact Hrun|]. split; [|apply dedup_first_NoDup].
  apply List.Forall_forall. intros h Hin. apply dedup_first_incl in Hin.
  apply in_app_iff in Hin. destruct Hin as [Hin|Hin].
  - pose proof (all_positions_emitted w s A) as H. rewrite HA in H.
    specialize (H eq_refl). now apply (proj1 (List.Forall_forall _ _) H).
  - pose proof (targeted_discovery_emitted w
                  (List.filter (fun a => not_in a (map asset A)) known_assets)
                  s1) as H.
    now apply (proj1 (List.Forall_forall _ _) H).
Qed.

Lemma filter_none {A} (f : A -> bool) (l : list A) :
  Forall (fun x => f x = false) l -> List.filter f l = [].
Proof.
  induction 1 as [|x l Hx Hl IH]; simpl; [reflexivity|]. now rewrite Hx.
Qed.

Lemma filter_perm {A} (f : A -> bool) (l l' : list A) :
  Permutation l l' -> Permutation (List.filter f l) (List.filter f l').
Proof.
  induction 1 as [|x l l' H IH|x y l|l l' l'' H1 IH1 H2 IH2]; simpl.
  - constructor.
  - destruct (f x); [now constructor | exact IH].
  - destruct (f x), (f y); try reflexivity. apply perm_swap.
  - now transitivity (List.filter f l').
Qed.

Lemma filter_id {A} (f : A -> bool) (l : list A) :
  Forall (fun x => f x = true) l -> List.filter f l = l.
Proof.
  induction 1 as [|x l Hx Hl IH]; simpl; [reflexivity|].
  now rewrite Hx, IH.
Qed.

Lemma Forall_displayed (P : holding -> Prop) (l : list holding) :
  Forall P l -> Forall P (displayed l).
Proof.
  intros H. apply List.Forall_forall. intros h Hin. unfold displayed in Hin.
  apply List.filter_In in Hin as [Hin _]. apply List.filter_In in Hin as [Hin _].
  exact (proj1 (List.Forall_forall _ _) H h Hin).
Qed.

Lemma displayed_app (l l' : list holding) :
  displayed (l ++ l') = displayed l ++ displayed l'.
Proof. unfold displayed. now rewrite !List.filter_app. Qed.

(** A holding kept by the deduplication is the first of its asset. *)
Lemma dedup_first_first_seen (l : list holding) (h : holding) :
  In h (dedup_first l) -> first_seen h l.
Proof.
  induction l as [|x rest IH]; simpl; [contradiction|].
  intros [->|Hin].
  - exists [], rest. split; [reflexivity | constructor].
  - apply List.filter_In in Hin as [Hin Hother].
    destruct (IH Hin) as (before & after & -> & Hbefore).
    exists (x :: before), after. split; [reflexivity|].
    constructor; [|exact Hbefore].
    unfold other_asset in Hother. apply negb_true_iff in Hother.
    apply String.eqb_neq in Hother. congruence.
Qed.

(** The entries of one silo in the returned list are the entries of that
    silo's list that pass the validation and the dust filter. *)
Lemma portfolio_by_source (spot_data earn_data : list holding) :
  Forall (fun h => source h = "Spot") spot_data ->
  Forall (fun h => source h = "Simple Earn") earn_data ->
  Permutation
    (List.filter from_earn (sort_desc (displayed (spot_data ++ earn_data))))
    (displayed earn_data)
  /\ Permutation
       (List.filter from_spot (sort_desc (displayed (spot_data ++ earn_data))))
       (displayed spot_data).
Proof.
  intros Hspot Hearn.
  pose proof (Forall_displayed _ _ Hspot) as Hspot'.
  pose proof (Forall_displayed _ _ Hearn) as Hearn'.
  split.
  - etransitivity; [apply filter_perm, sort_desc_perm|].
    rewrite displayed_app, List.filter_app.
    rewrite (filter_none from_earn (displayed spot_data)),
      (filter_id from_earn (displayed earn_data)); [reflexivity| |].
    + eapply List.Forall_impl; [|exact Hearn']. intros h H.
      unfold from_earn. now rewrite H.
    + eapply List.Forall_impl; [|exact Hspot']. intros h H.
      unfold from_earn. now rewrite H.
  - etransitivity; [apply filter_perm, sort_desc_perm|].
    rewrite displayed_app, List.filter_app.
    rewrite (filter_id from_spot (displayed spot_data)),
      (filter_none from_spot (displayed earn_data)); [now rewrite app_nil_r| |].
    + eapply List.Forall_impl; [|exact Hearn']. intros h H.
      unfold from_spot. now rewrite H.
    + eapply List.Forall_impl; [|exact Hspot']. intros h H.
      unfold from_spot. now rewrite H.
Qed.

(** C1 (amended). [get_portfolio_data] always returns a list in which no
    two Simple Earn holdings have the same asset symbol, and the one that
    is there is the first-seen entry of its asset in the bulk results
    followed by the targeted results: the Simple Earn entries of the
    list are the entries of that deduplicated list that pass the
    validation and the dust filter.  Spot holdings are not deduplicated:
    the Spot entries of the list are all the entries of the spot list that
    pass the same two filters. *)
Theorem one_earn_holding_per_asset (w : World) (s : state) :
  exists spot_data s1 strategy_A sA strategy_B earn_data s2 portfolio,
    _get_spot_data w s = (Ok spot_data, s1)
    /\ _get_all_simple_earn_positions w s1 = (Ok strategy_A, sA)
    /\ targeted_discovery w (missing_after strategy_A) sA = (strategy_B, s2)
    /\ _get_earn_data w s1 = (Ok earn_data, s2)
    /\ get_portfolio_data w s = (Ok portfolio, s2)
    /\ Forall (fun h => source h = "Spot") spot_data
    /\ Forall (fun h => source h = "Simple Earn") earn_data
    /\ List.NoDup (map asset earn_data)
    /\ List.NoDup (map asset (List.filter from_earn portfolio))
    /\ (forall h, In h portfolio -> from_earn h = true ->
                  first_seen h (strategy_A ++ strategy_B))
    /\ Permutation (List.filter from_earn portfolio)
         (displayed (reconcile strategy_A strategy_B))
    /\ Permutation (List.filter from_spot portfolio) (displayed spot_data).
Proof.
  destruct (spot_data_emitted w s) as (spot_data & s1 & Hspot & Hsrc).
  destruct (earn_data_unique w s1) as (earn_data & s2 & Hearn & Hesrc & Hnodup).
  destruct (earn_data_run w s1) as (A & sA & HA & HrunE). cbv zeta in HrunE.
  fold (missing_after A) in HrunE.
  rewrite Hearn in HrunE. injection HrunE as Hdata Hs2.
  destruct (portfolio_run w s)
    as (spot' & s1' & earn' & s2' & Hspot' & Hearn' & Hrun).
  rewrite Hspot in Hspot'. inversion Hspot'; subst spot' s1'.
  rewrite Hearn in Hearn'. inversion Hearn'; subst earn' s2'.
  assert (Hsrc' : Forall (fun h => source h = "Spot") spot_data).
  { eapply List.Forall_impl; [|exact Hsrc]. intros h [_ H]. exact H. }
  destruct (portfolio_by_source spot_data earn_data Hsrc' Hesrc)
    as [Hpe Hps].
  exists spot_data, s1, A, sA, (fst (targeted_discovery w (missing_after A) sA)),
    earn_data, s2, (sort_desc (displayed (spot_data ++ earn_data))).
  split; [exact Hspot|]. split; [exact HA|].
  split; [rewrite Hs2; now destruct (targeted_discovery _ _ _)|].
  split; [exact Hearn|]. split; [exact Hrun|].
  split; [exact Hsrc'|]. split; [exact Hesrc|]. split; [exact Hnodup|].
  split; [|split; [|split]].
  - apply (Permutation_NoDup (Permutation_sym (Permutation_map asset Hpe))).
    unfold displayed. now do 2 apply NoDup_map_filter.
  - intros h Hin Hfrom.
    assert (Hin' : In h (displayed earn_data)).
    { apply (Permutation_in _ Hpe). apply List.filter_In. now split. }
    unfold displayed in Hin'.
    apply List.filter_In in Hin' as [Hin' _].
    apply List.filter_In in Hin' as [Hin' _].
    rewrite Hdata in Hin'. now apply dedup_first_first_seen.
  - now rewrite <- Hdata.
  - exact Hps.
Qed.

(** ** Total failure of both sources *)

Lemma failed_lookups_add_nothing w (a pt url : string) (attempts : list nat) :
  http_down w ->
  forall l s, fst (snd (targeted_attempts w a pt url attempts (l, s))) = l.
Proof.
  intros Hdown. induction attempts as [|attempt rest IH]; intros l s.
  - reflexivity.
  - simpl. unfold bind at 1. unfold try_except_request, try_except.
    unfold bind at 1. unfold lift at 1, http_get. simpl.
    pose proof (Hdown (tick s) url (Some a)) as H0.
    destruct (requests_get w (tick s) url (Some a)) as [[|]|c rows|c e|];
      simpl in *.
    + apply IH.
    + reflexivity.
    + destruct (c =? 200)%Z eqn:Hc; [apply Z.eqb_eq in Hc; contradiction|].
      simpl. apply IH.
    + destruct (c =? 200)%Z eqn:Hc; [destruct e|]; simpl;
        try rewrite Hc; simpl; try reflexivity; apply IH.
    + reflexivity.
Qed.

Lemma targeted_endpoint_down w (a : string) (ep : string * string)
    (l : list holding) (s : state) :
  http_down w ->
  exists s', targeted_endpoint w a ep (l, s) = (Ok tt, (l, s')).
Proof.
  intros Hdown. unfold targeted_endpoint, try_except.
  pose proof (failed_lookups_add_nothing w a (fst ep) (snd ep) (seq 0 2)
                Hdown l s) as H.
  destruct (targeted_attempts _ _ _ _ _ _) as [[[]|e] [l' s']];
    simpl in H; subst l'; now exists s'.
Qed.

Lemma asset_positions_down w (a : string) (s : state) :
  http_down w -> fst (_get_simple_earn_asset_positions w a s) = Ok [].
Proof.
  intros Hdown.
  unfold _get_simple_earn_asset_positions, with_local, try_except, endpoints.
  simpl. unfold bind.
  destruct (targeted_endpoint_down w a ("FLEXIBLE", FLEXIBLE_URL) [] s Hdown)
    as [s1 ->].
  destruct (targeted_endpoint_down w a ("LOCKED", LOCKED_URL) [] s1 Hdown)
    as [s2 ->].
  reflexivity.
Qed.

Lemma all_positions_down w (s : state) :
  http_down w -> fst (_get_all_simple_earn_positions w s) = Ok [].
Proof.
  intros Hdown. pose proof (bulk_discovery_decomposes w s) as H.
  cbv zeta in H. rewrite H. simpl.
  rewrite !no_success_contributes_nothing; auto.
Qed.

Lemma targeted_discovery_down w (missing_assets : list string) :
  http_down w ->
  forall s, fst (targeted_discovery w missing_assets s) = [].
Proof.
  intros Hdown. induction missing_assets as [|a rest IH]; intros s; simpl.
  - reflexivity.
  - pose proof (asset_positions_down w a s Hdown) as Hfound.
    destruct (_get_simple_earn_asset_positions w a s) as [r s1].
    specialize (IH s1). destruct (targeted_discovery w rest s1) as [more s2].
    simpl in *. now subst.
Qed.

Lemma earn_data_down w (s : state) :
  http_down w -> fst (_get_earn_data w s) = Ok [].
Proof.
  intros Hdown. destruct (earn_data_run w s) as (A & s1 & HA & Hrun).
  cbv zeta in Hrun. rewrite Hrun. simpl.
  pose proof (all_positions_down w s Hdown) as HA'. rewrite HA in HA'.
  simpl in HA'. inversion HA'; subst A.
  now rewrite targeted_discovery_down.
Qed.

Lemma spot_data_down w (s : state) :
  get_account w (tick s) = None -> fst (_get_spot_data w s) = Ok [].
Proof.
  intros Hdown.
  unfold _get_spot_data, with_local, try_except, bind, lift, account_balances.
  simpl. now rewrite Hdown.
Qed.

(** C2 (amended). When both sources fail entirely (the account listing
    raises and no Simple Earn request succeeds), [get_portfolio_data]
    returns the empty list; and it raises in no case at all, whether the
    failure is total, partial or per asset. *)
Theorem total_failure_returns_empty_list (w : World) (s : state) :
  get_account w (tick s) = None ->
  http_down w ->
  fst (get_portfolio_data w s) = Ok []
  /\ forall w' s0, exists portfolio s',
       get_portfolio_data w' s0 = (Ok portfolio, s').
Proof.
  intros Hspot Hhttp. split.
  - destruct (portfolio_run w s)
      as (spot_data & s1 & earn_data & s2 & Hs & He & Hrun).
    rewrite Hrun. simpl.
    pose proof (spot_data_down w s Hspot) as Hs'. rewrite Hs in Hs'.
    pose proof (earn_data_down w s1 Hhttp) as He'. rewrite He in He'.
    simpl in *. inversion Hs'. inversion He'. reflexivity.
  - intros w' s0.
    destruct (portfolio_run w' s0)
      as (spot_data & s1 & earn_data & s2 & _ & _ & Hrun).
    eauto.
Qed.

(** ** Runs in concrete environments *)

(** C1, counterexample. With BTC in both silos the returned list has two
    BTC entries, one per silo. *)
Lemma same_asset_reported_by_both_silos :
  exists portfolio,
    fst (get_portfolio_data both_silos initial_state) = Ok portfolio
    /\ map asset portfolio = ["BTC"; "BTC"]
    /\ map source portfolio = ["Simple Earn"; "Spot"]
    /\ (List.NoDup (map asset portfolio) -> False).
Proof.
  eexists. split; [vm_compute; reflexivity|].
  split; [reflexivity|]. split; [reflexivity|].
  simpl. intros H. inversion H as [|? ? Hnotin _]. apply Hnotin. now left.
Qed.

(** C2, counterexample. With both sources failing entirely the aggregator
    returns the empty list; it does not raise. *)
Lemma total_failure_yields_empty_list :
  (forall t, get_account all_down t = None)
  /\ (forall t url asset_param,
        requests_get all_down t url asset_param = HttpRaises RequestException)
  /\ fst (get_portfolio_data all_down initial_state) = Ok []
  /\ (forall e, fst (get_portfolio_data all_down initial_state) = Raise e -> False).
Proof.
  split; [reflexivity|]. split; [reflexivity|].
  assert (H : fst (get_portfolio_data all_down initial_state) = Ok [])
    by (vm_compute; reflexivity).
  split; [exact H|]. intros e He. rewrite H in He. discriminate.
Qed.

(** C8, counterexample.  A 200 answer whose body is not JSON is neither
    a network failure nor a status other than 200, and yet the bulk
    discovery asks the endpoint again. *)
Lemma undecodable_answer_is_retried :
  exists flexible locked,
    http_calls
      (log (snd (_get_all_simple_earn_positions garbled_body initial_state)))
    = map (fun o => (FLEXIBLE_URL, None, o)) flexible
      ++ map (fun o => (LOCKED_URL, None, o)) locked
    /\ flexible = [HttpUnreadable 200 RequestException; HttpResponse 200 []]
    /\ (attempts_as_specified 3 flexible -> False).
Proof.
  exists [HttpUnreadable 200 RequestException; HttpResponse 200 []],
    [HttpResponse 200 []].
  split; [vm_compute; reflexivity|]. split; [reflexivity|].
  intros [_ H]. simpl in H. inversion H as [|? ? Hfirst _].
  simpl in Hfirst. now apply Hfirst.
Qed.

(** C2, at a concrete input: nothing answers. *)
Lemma total_failure_returns_empty_list_witness :
  get_account all_down (tick initial_state) = None
  /\ http_down all_down
  /\ fst (get_portfolio_data all_down initial_state) = Ok [].
Proof.
  assert (H1 : get_account all_down (tick initial_state) = None)
    by reflexivity.
  assert (H2 : http_down all_down) by (intros t url a; exact I).
  split; [exact H1|]. split; [exact H2|].
  exact (proj1 (total_failure_returns_empty_list all_down initial_state H1 H2)).
Defined.

(** C3, at a concrete input: NOP has no pair at all, BTC behind it in the
    wallet is still reported. *)
Lemma unresolvable_price_skips_asset_witness :
  unresolvable spot_only "NOP" initial_state
  /\ fst (_get_current_price spot_only "NOP" initial_state) = Ok 0%float
  /\ map asset
       (fst (snd (for_each
                    [mk_balance (Some "NOP") (Some 3%float) (Some 0%float);
                     mk_balance (Some "BTC") (Some 1%float) (Some 0.5%float)]
                    (spot_balance spot_only) ([], initial_state))))
     = ["BTC"].
Proof.
  assert (H : unresolvable spot_only "NOP" initial_state).
  { split; [exact I|]. split; [reflexivity | left; reflexivity]. }
  split; [exact H|].
  destruct (unresolvable_price_skips_asset spot_only "NOP" initial_state H)
    as (s' & Hrun & Hspot & _).
  split; [now rewrite Hrun|].
  rewrite (Hspot 3%float 0%float _ [] eq_refl eq_refl).
  injection Hrun as <-. vm_compute. reflexivity.
Defined.

(** C4, at a concrete input: an entry that is 100 seconds old. *)
Lemma fresh_cache_entry_returned_witness :
  _price_cache warm_cache !! "BTC" = Some (50000%float, 900%float)
  /\ (time_time both_silos (tick warm_cache) - 900 <? 300)%float = true
  /\ fst (_get_current_price both_silos "BTC" warm_cache) = Ok 50000%float
  /\ log (snd (_get_current_price both_silos "BTC" warm_cache)) = []
  /\ _price_cache (snd (_get_current_price both_silos "BTC" warm_cache))
     = _price_cache warm_cache.
Proof.
  assert (H1 : _price_cache warm_cache !! "BTC"
               = Some (50000%float, 900%float)) by (vm_compute; reflexivity).
  assert (H2 : (time_time both_silos (tick warm_cache) - 900 <? 300)%float
               = true) by reflexivity.
  split; [exact H1|]. split; [exact H2|].
  exact (fresh_cache_entry_returned both_silos "BTC" warm_cache _ _ H1 H2).
Defined.

(** C5, at a concrete input: XYZ is quoted against BTC only. *)
Lemma bridge_price_is_product_witness :
  cache_miss spot_only "XYZ" initial_state
  /\ direct_pair spot_only "XYZ" initial_state = None
  /\ fst (_get_current_price spot_only "XYZ" initial_state)
     = Ok (0.5 * 50000)%float.
Proof.
  assert (H1 : cache_miss spot_only "XYZ" initial_state) by exact I.
  assert (H2 : direct_pair spot_only "XYZ" initial_state = None)
    by reflexivity.
  split; [exact H1|]. split; [exact H2|].
  exact (bridge_price_is_product spot_only "XYZ" initial_state H1 H2).
Defined.

(** C9, at a concrete input: LDO, a genuine ticker starting with "LD". *)
Lemma LD_prefixed_balances_never_reported_witness :
  String.prefix "LD" "LDO" = true
  /\ for_each [mk_balance (Some "LDO") (Some 7%float) (Some 0%float)]
       (spot_balance spot_only) ([], initial_state)
     = (Ok tt, ([], initial_state)).
Proof.
  split; [reflexivity|].
  exact (proj1 (LD_prefixed_balances_never_reported spot_only initial_state)
           (mk_balance (Some "LDO") (Some 7%float) (Some 0%float)) "LDO"
           [] [] initial_state eq_refl eq_refl).
Defined.

(** C10, at concrete inputs: one endpoint down, the other lists BTC. *)
Lemma bulk_failure_keeps_other_endpoint_witness :
  (total_failure flexible_down FLEXIBLE_URL initial_state
   /\ fst (_get_all_simple_earn_positions flexible_down initial_state)
      = Ok [earn_holding "BTC" 2 50000 "LOCKED" 50])
  /\ (total_failure locked_down LOCKED_URL
        (snd (endpoint_positions locked_down ("FLEXIBLE", FLEXIBLE_URL)
                initial_state))
      /\ fst (_get_all_simple_earn_positions locked_down initial_state)
         = Ok [earn_holding "BTC" 2 50000 "FLEXIBLE" 50]).
Proof.
  split.
  - assert (H : total_failure flexible_down FLEXIBLE_URL initial_state)
      by (intros k Hk; exact I).
    split; [exact H|].
    rewrite (proj1 (bulk_failure_keeps_other_endpoint flexible_down
                      initial_state) H).
    vm_compute. reflexivity.
  - assert (H : total_failure locked_down LOCKED_URL
                  (snd (endpoint_positions locked_down
                          ("FLEXIBLE", FLEXIBLE_URL) initial_state)))
      by (intros k Hk; simpl; discriminate).
    split; [exact H|].
    rewrite (proj2 (bulk_failure_keeps_other_endpoint locked_down
                      initial_state) H).
    vm_compute. reflexivity.
Defined.

(** ** The shape of the holdings *)

Section Emission.

Variable w : World.
Variable P : holding -> Prop.

Lemma spot_balance_emits_gen (b : balance) :
  (forall a total p, String.prefix "LD" a = false -> gtb total 0 = true ->
                     gtb p 0 = true -> P (spot_holding a total p)) ->
  preserves (fun ls => Forall P (fst ls)) (spot_balance w b).
Proof.
  intros HP. unfold spot_balance.
  apply preserves_bind; [apply preserves_field|]. intros a.
  destruct (String.prefix "LD" a) eqn:HLD; [apply preserves_ret|].
  apply preserves_bind; [apply preserves_field|]. intros free.
  apply preserves_bind; [apply preserves_field|]. intros locked.
  destruct (gtb _ 0) eqn:Htotal; [|apply preserves_ret].
  apply preserves_bind.
  { apply (preserves_lift_local (Forall P)). }
  intros p. destruct (gtb p 0) eqn:Hp; [|apply preserves_ret].
  apply preserves_append_Forall. now apply HP.
Qed.

Lemma spot_data_emits_gen (s : state) :
  (forall a total p, String.prefix "LD" a = false -> gtb total 0 = true ->
                     gtb p 0 = true -> P (spot_holding a total p)) ->
  forall spot_data, fst (_get_spot_data w s) = Ok spot_data ->
                    Forall P spot_data.
Proof.
  intros HP spot_data.
  unfold _get_spot_data, with_local, try_except.
  unfold bind at 1. unfold lift at 1, account_balances. simpl.
  destruct (get_account w (tick s)) as [balances|]; simpl.
  - unfold bind.
    pose proof (preserves_for_each (fun ls => Forall P (fst ls))
                  balances (spot_balance w)
                  (fun b => spot_balance_emits_gen b HP)
                  ([], consult [AccountCall] s) ltac:(constructor)) as Hinv.
    destruct (for_each balances (spot_balance w) _) as [[[]|e] [l s1]];
      simpl in *; intros [= <-]; [exact Hinv | constructor].
  - intros [= <-]. constructor.
Qed.

Variable pt : string.
Hypothesis earn_P :
  forall a amount p rate, gtb amount 0 = true -> gtb p 0 = true ->
                          P (earn_holding a amount p pt rate).

Lemma bulk_row_emits_gen (pos : position) :
  preserves (fun ls => Forall P (fst ls)) (bulk_row w pt pos).
Proof.
  unfold bulk_row.
  apply preserves_bind; [apply preserves_field|]. intros a.
  apply preserves_bind; [apply preserves_field|]. intros amount.
  destruct (gtb amount 0) eqn:Ha; [|apply preserves_ret].
  apply preserves_bind.
  { apply (preserves_lift_local (Forall P)). }
  intros p. destruct (gtb p 0) eqn:Hp; [|apply preserves_ret].
  apply preserves_bind; [apply preserves_field|]. intros rate.
  apply preserves_append_Forall. now apply earn_P.
Qed.

Lemma targeted_row_emits_gen (a : string) (pos : position) :
  (forall amount p rate, gtb amount 0 = true -> gtb p 0 = true ->
                         P (earn_holding a amount p pt rate)) ->
  preserves (fun ls => Forall P (fst ls)) (targeted_row w a pt pos).
Proof.
  intros asked_P. unfold targeted_row.
  apply preserves_bind; [apply preserves_field|]. intros amount.
  destruct (gtb amount 0) eqn:Ha; [|apply preserves_ret].
  apply preserves_bind.
  { apply (preserves_lift_local (Forall P)). }
  intros p. destruct (gtb p 0) eqn:Hp; [|apply preserves_ret].
  apply preserves_bind; [apply preserves_field|]. intros rate.
  apply preserves_append_Forall. now apply asked_P.
Qed.

Lemma bulk_attempts_emit_gen (url : string) (attempts : list nat) :
  preserves (fun ls => Forall P (fst ls)) (bulk_attempts w pt url attempts).
Proof.
  induction attempts as [|attempt rest IH]; simpl.
  - apply preserves_ret.
  - apply preserves_bind; [|intros [|]; [apply preserves_ret | exact IH]].
    apply preserves_try_except_request; [|apply preserves_ret].
    apply preserves_bind.
    { apply (preserves_lift_local (Forall P)). }
    intros response. destruct (fst response =? 200)%Z; [|apply preserves_ret].
    apply (preserves_bind_yields _ (Forall P)).
    + apply (preserves_lift_local (Forall P)).
    + apply yields_lift, yields_local_list; [constructor|].
      apply preserves_for_each. intros pos. apply bulk_row_emits_gen.
    + intros positions Hpos.
      apply preserves_bind; [|intros _; apply preserves_ret].
      now apply preserves_extend_Forall.
Qed.

Lemma targeted_attempts_emit_gen (a url : string) (attempts : list nat) :
  (forall amount p rate, gtb amount 0 = true -> gtb p 0 = true ->
                         P (earn_holding a amount p pt rate)) ->
  preserves (fun ls => Forall P (fst ls))
    (targeted_attempts w a pt url attempts).
Proof.
  intros asked_P. induction attempts as [|attempt rest IH]; simpl.
  - apply preserves_ret.
  - apply preserves_bind; [|intros [|]; [apply preserves_ret | exact IH]].
    apply preserves_try_except_request; [|apply preserves_ret].
    apply preserves_bind.
    { apply (preserves_lift_local (Forall P)). }
    intros response. destruct (fst response =? 200)%Z; [|apply preserves_ret].
    apply preserves_bind; [|intros _; apply preserves_ret].
    apply preserves_for_each. intros pos. now apply targeted_row_emits_gen.
Qed.

End Emission.

(** A property that the holdings of both product types have is had by
    everything the two discoveries return. *)
Lemma all_positions_emit_gen (w : World) (P : holding -> Prop) :
  (forall pt a amount p rate,
      pt = "FLEXIBLE" \/ pt = "LOCKED" ->
      gtb amount 0 = true -> gtb p 0 = true ->
      P (earn_holding a amount p pt rate)) ->
  yields (Forall P) (_get_all_simple_earn_positions w).
Proof.
  intros HP. apply yields_local_list_or_nil; [constructor|]. simpl.
  apply preserves_bind; [|intros _; apply preserves_bind;
                                     [|intros _; apply preserves_ret]].
  - apply preserves_try_except; [|intros _; apply preserves_ret].
    apply bulk_attempts_emit_gen. intros. apply HP; auto.
  - apply preserves_try_except; [|intros _; apply preserves_ret].
    apply bulk_attempts_emit_gen. intros. apply HP; auto.
Qed.

Lemma asset_positions_emit_gen (w : World) (P : holding -> Prop) (a : string) :
  (forall pt amount p rate,
      pt = "FLEXIBLE" \/ pt = "LOCKED" ->
      gtb amount 0 = true -> gtb p 0 = true ->
      P (earn_holding a amount p pt rate)) ->
  yields (Forall P) (_get_simple_earn_asset_positions w a).
Proof.
  intros HP. apply yields_local_list_or_nil; [constructor|]. simpl.
  apply preserves_bind; [|intros _; apply preserves_bind;
                                     [|intros _; apply preserves_ret]].
  - apply preserves_try_except; [|intros _; apply preserves_ret].
    apply targeted_attempts_emit_gen. intros. apply HP; auto.
  - apply preserves_try_except; [|intros _; apply preserves_ret].
    apply targeted_attempts_emit_gen. intros. apply HP; auto.
Qed.

Lemma targeted_discovery_emit_gen (w : World) (P : holding -> Prop)
    (missing_assets : list string) :
  (forall a, In a missing_assets ->
             yields (Forall P) (_get_simple_earn_asset_positions w a)) ->
  forall s, Forall P (fst (targeted_discovery w missing_assets s)).
Proof.
  induction missing_assets as [|a rest IH]; intros HP s; simpl; [constructor|].
  pose proof (HP a (or_introl eq_refl) s) as Hfound.
  destruct (_get_simple_earn_asset_positions w a s) as [r s1].
  assert (IH' := IH (fun b Hb => HP b (or_intror Hb)) s1).
  destruct (targeted_discovery w rest s1) as [more s2].
  simpl in *. apply Forall_app. split; [|exact IH'].
  destruct r as [found|e]; [now apply Hfound | constructor].
Qed.

Lemma earn_holding_shaped (pt a : string) (amount p rate : float) :
  pt = "FLEXIBLE" \/ pt = "LOCKED" ->
  gtb amount 0 = true -> gtb p 0 = true ->
  earn_shaped (earn_holding a amount p pt rate).
Proof.
  intros Hpt Ha Hp. unfold earn_shaped, priced. simpl.
  repeat split; auto. destruct Hpt; subst pt; [left | right]; reflexivity.
Qed.

Lemma earn_data_shaped (w : World) (s : state) (earn_data : list holding) :
  fst (_get_earn_data w s) = Ok earn_data -> Forall earn_shaped earn_data.
Proof.
  destruct (earn_data_run w s) as (A & s1 & HA & Hrun). cbv zeta in Hrun.
  rewrite Hrun. simpl. intros [= <-].
  apply List.Forall_forall. intros h Hin. apply dedup_first_incl in Hin.
  apply in_app_iff in Hin. destruct Hin as [Hin|Hin].
  - pose proof (all_positions_emit_gen w earn_shaped earn_holding_shaped s A)
      as H.
    rewrite HA in H. specialize (H eq_refl).
    now apply (proj1 (List.Forall_forall _ _) H).
  - pose proof (targeted_discovery_emit_gen w earn_shaped
                  (List.filter (fun a => not_in a (map asset A)) known_assets)
                  (fun a _ => asset_positions_emit_gen w earn_shaped a
                                (fun pt => earn_holding_shaped pt a))
                  s1) as H.
    now apply (proj1 (List.Forall_forall _ _) H).
Qed.

Lemma spot_data_shaped (w : World) (s : state) (spot_data : list holding) :
  fst (_get_spot_data w s) = Ok spot_data -> Forall spot_shaped spot_data.
Proof.
  apply spot_data_emits_gen. intros a total p _ Ht Hp.
  unfold spot_shaped, priced. simpl. repeat split; auto.
Qed.

(** X1. Every holding of the list returned by [get_portfolio_data] passed
    the validation and the dust filter: its quantity and price are
    strictly positive and its value is at least 1.0. *)
Theorem portfolio_holdings_valid_above_dust (w : World) (s : state) :
  exists portfolio s',
    get_portfolio_data w s = (Ok portfolio, s')
    /\ Forall (fun h => gtb (quantity h) 0 = true
                        /\ gtb (current_price h) 0 = true
                        /\ geb (current_value h) 1 = true) portfolio.
Proof.
  destruct (portfolio_run w s)
    as (spot_data & s1 & earn_data & s2 & _ & _ & Hrun).
  eexists _, _. split; [exact Hrun|].
  apply List.Forall_forall. intros h Hin.
  apply (Permutation_in _ (sort_desc_perm _)) in Hin.
  unfold displayed in Hin. apply List.filter_In in Hin as [Hin Hdust].
  apply List.filter_In in Hin as [_ Hvalid]. unfold valid in Hvalid.
  apply andb_prop in Hvalid as [Hvalid _].
  apply andb_prop in Hvalid as [Hq Hp]. auto.
Qed.

Lemma portfolio_shaped_run (w : World) (s : state) :
  exists portfolio s',
    get_portfolio_data w s = (Ok portfolio, s')
    /\ Forall (fun h => spot_shaped h \/ earn_shaped h) portfolio.
Proof.
  destruct (portfolio_run w s)
    as (spot_data & s1 & earn_data & s2 & Hspot & Hearn & Hrun).
  eexists _, _. split; [exact Hrun|].
  apply List.Forall_forall. intros h Hin.
  apply (Permutation_in _ (sort_desc_perm _)) in Hin.
  unfold displayed in Hin. apply List.filter_In in Hin as [Hin _].
  apply List.filter_In in Hin as [Hin _].
  apply in_app_iff in Hin. destruct Hin as [Hin|Hin].
  - left. pose proof (spot_data_shaped w s spot_data) as H.
    rewrite Hspot in H. specialize (H eq_refl).
    now apply (proj1 (List.Forall_forall _ _) H).
  - right. pose proof (earn_data_shaped w s1 earn_data) as H.
    rewrite Hearn in H. specialize (H eq_refl).
    now apply (proj1 (List.Forall_forall _ _) H).
Qed.

(** X2. Every holding of the returned portfolio is one that a source
    built: its value is quantity times price, its four user-entered fields
    are 0.0, and it is either a Spot holding of type Spot with APR 0 or a
    Simple Earn holding of type Flexible or Locked. *)
Theorem portfolio_holdings_shaped (w : World) (s : state) :
  exists portfolio s',
    get_portfolio_data w s = (Ok portfolio, s')
    /\ Forall (fun h => spot_shaped h \/ earn_shaped h) portfolio.
Proof. apply portfolio_shaped_run. Qed.

Lemma counts_partition (l : list holding) :
  Forall (fun h => source h = "Spot" \/ source h = "Simple Earn") l ->
  spot_count l + earn_count l = length l.
Proof.
  unfold spot_count, earn_count.
  induction 1 as [|h l Hh Hl IH]; simpl; [reflexivity|].
  destruct Hh as [Hh|Hh]; rewrite Hh; simpl; lia.
Qed.

(** X3. The two counts that [main] logs and [_add_summary] writes add up
    to the length of the portfolio: every returned holding is counted
    once, as Spot or as Simple Earn. *)
Theorem source_counts_add_up (w : World) (s : state) :
  exists portfolio s',
    get_portfolio_data w s = (Ok portfolio, s')
    /\ spot_count portfolio + earn_count portfolio = length portfolio.
Proof.
  destruct (portfolio_shaped_run w s) as (portfolio & s' & Hrun & Hall).
  exists portfolio, s'. split; [exact Hrun|].
  apply counts_partition. eapply List.Forall_impl; [|exact Hall].
  intros h [(_ & H & _)|(_ & H & _)]; auto.
Qed.

(** ** What a resolution fetches and caches *)

Lemma price_on_hit (w : World) (asset : string) (s : state)
    (cached_price cached_time : float) :
  _price_cache s !! asset = Some (cached_price, cached_time) ->
  (time_time w (tick s) - cached_time <? 300)%float = true ->
  _get_current_price w asset s = (Ok cached_price, consult [] s).
Proof.
  intros Hentry Hfresh.
  unfold _get_current_price, try_except, bind, now, price_cache. simpl.
  now rewrite Hentry, Hfresh.
Qed.

Lemma price_on_fetch (w : World) (asset : string) (s : state) (price : float) :
  cache_miss w asset s -> fetched w asset s = Some price ->
  fst (_get_current_price w asset s) = Ok price
  /\ _price_cache (snd (_get_current_price w asset s))
     = <[asset := (price, clock_at w s)]> (_price_cache s).
Proof.
  intros Hmiss Hfetch. rewrite (price_on_miss w asset s Hmiss).
  unfold fetched, direct_pair, bridge_hop, bridge_to_settlement in Hfetch.
  unfold try_except, fetch_price, bind, try_except, symbol_ticker, cache_store.
  simpl.
  destruct (get_symbol_ticker w (S (tick s)) (asset ++ "USDT")%string)
    as [p|]; simpl.
  - injection Hfetch as <-. auto.
  - destruct (get_symbol_ticker w (S (S (tick s))) (asset ++ "BTC")%string)
      as [b1|]; simpl; [|discriminate].
    destruct (get_symbol_ticker w (S (S (S (tick s)))) "BTCUSDT")
      as [b2|]; simpl; [|discriminate].
    injection Hfetch as <-. auto.
Qed.

(** X4. A price fetched on a cache miss (directly or through BTC) is
    returned and stored under the asset with the time read at the start of
    the resolution; any later resolution of the asset that finds this cache
    less than 300 seconds after that time returns the same price and makes
    no network call. *)
Theorem fetched_price_is_cached_and_reused (w : World) (asset : string)
    (s : state) (price : float) :
  cache_miss w asset s ->
  fetched w asset s = Some price ->
  fst (_get_current_price w asset s) = Ok price
  /\ _price_cache (snd (_get_current_price w asset s)) !! asset
     = Some (price, clock_at w s)
  /\ forall later,
       _price_cache later = _price_cache (snd (_get_current_price w asset s)) ->
       (clock_at w later - clock_at w s <? 300)%float = true ->
       fst (_get_current_price w asset later) = Ok price
       /\ log (snd (_get_current_price w asset later)) = log later.
Proof.
  intros Hmiss Hfetch.
  destruct (price_on_fetch w asset s price Hmiss Hfetch) as [Hret Hcache].
  split; [exact Hret|]. split.
  - rewrite Hcache. apply lookup_insert_eq.
  - intros later Hsame Hfresh.
    rewrite (price_on_hit w asset later price (clock_at w s)).
    + simpl. now rewrite app_nil_r.
    + rewrite Hsame, Hcache. apply lookup_insert_eq.
    + exact Hfresh.
Qed.

(** What the fetching part of a resolution does, case by case. *)
Lemma fetch_price_cases (w : World) (asset : string) (t : float) (s : state) :
  fetch_price w asset t s
  = match get_symbol_ticker w (tick s) (asset ++ "USDT")%string with
    | Some p =>
        (Ok p, {| _price_cache := <[asset := (p, t)]> (_price_cache s);
                  tick := 1 + tick s;
                  log := log s ++ firstn 1 (ticker_plan asset) |})
    | None =>
        match get_symbol_ticker w (S (tick s)) (asset ++ "BTC")%string with
        | None =>
            (Ok 0%float, {| _price_cache := _price_cache s;
                            tick := 2 + tick s;
                            log := log s ++ firstn 2 (ticker_plan asset) |})
        | Some b1 =>
            match get_symbol_ticker w (S (S (tick s))) "BTCUSDT" with
            | None =>
                (Ok 0%float, {| _price_cache := _price_cache s;
                                tick := 3 + tick s;
                                log := log s ++ firstn 3 (ticker_plan asset) |})
            | Some b2 =>
                (Ok (b1 * b2)%float,
                 {| _price_cache :=
                      <[asset := ((b1 * b2)%float, t)]> (_price_cache s);
                    tick := 3 + tick s;
                    log := log s ++ firstn 3 (ticker_plan asset) |})
            end
        end
    end.
Proof.
  unfold fetch_price, try_except, bind, symbol_ticker, cache_store,
    ticker_plan, ret, consult. simpl.
  destruct (get_symbol_ticker w (tick s) (asset ++ "USDT")%string) as [p|];
    simpl; [reflexivity|].
  destruct (get_symbol_ticker w (S (tick s)) (asset ++ "BTC")%string) as [b1|];
    simpl; [|now rewrite <- ?app_assoc].
  destruct (get_symbol_ticker w (S (S (tick s))) "BTCUSDT") as [b2|];
    simpl; now rewrite <- ?app_assoc.
Qed.

(** A resolution answers from the cache, or fetches in the state left by
    its reading of the clock. *)
Lemma price_cases (w : World) (asset : string) (s : state) :
  (exists p, _get_current_price w asset s = (Ok p, consult [] s))
  \/ _get_current_price w asset s
     = fetch_price w asset (clock_at w s) (consult [] s).
Proof.
  unfold _get_current_price, try_except, bind, now, price_cache, clock_at.
  simpl.
  assert (Hfetch : forall s1,
            (let (r, s') := fetch_price w asset (time_time w (tick s)) s1 in
             match r with
             | Ok a => (Ok a, s')
             | Raise _ => ret 0%float s'
             end) = fetch_price w asset (time_time w (tick s)) s1).
  { intros s1. rewrite fetch_price_cases.
    destruct (get_symbol_ticker w (tick s1) _); [reflexivity|].
    destruct (get_symbol_ticker w (S (tick s1)) _); [|reflexivity].
    destruct (get_symbol_ticker w (S (S (tick s1))) _); reflexivity. }
  destruct (_price_cache s !! asset) as [[p t]|];
    [destruct (_ <? _)%float; [left; now exists p|]|];
    right; apply Hfetch.
Qed.

(** X5. A resolution never removes a cache entry and touches no entry
    but the one of the asset it resolves. *)
Theorem resolution_touches_one_cache_entry (w : World) (asset : string)
    (s : state) :
  (forall other, other <> asset ->
     _price_cache (snd (_get_current_price w asset s)) !! other
     = _price_cache s !! other)
  /\ (is_Some (_price_cache s !! asset) ->
      is_Some (_price_cache (snd (_get_current_price w asset s)) !! asset)).
Proof.
  destruct (price_cases w asset s) as [[p ->]| ->]; [now split|].
  rewrite fetch_price_cases. simpl.
  destruct (get_symbol_ticker w (S (tick s)) _) as [p1|]; simpl.
  { split; [intros other Hne; now rewrite lookup_insert_ne|].
    intros _. rewrite lookup_insert_eq. eauto. }
  destruct (get_symbol_ticker w (S (S (tick s))) _) as [b1|]; simpl;
    [|now split].
  destruct (get_symbol_ticker w (S (S (S (tick s)))) _) as [b2|]; simpl;
    [|now split].
  split; [intros other Hne; now rewrite lookup_insert_ne|].
  intros _. rewrite lookup_insert_eq. eauto.
Qed.

(** X6. A resolution reads the clock once and makes at most three
    network calls, all of them ticker calls asked in the fixed order
    asset/USDT, asset/BTC, BTC/USDT: the calls it logs are a prefix of that
    plan. *)
Theorem resolution_call_budget (w : World) (asset : string) (s : state) :
  exists n,
    n <= 3
    /\ log (snd (_get_current_price w asset s))
       = log s ++ firstn n (ticker_plan asset)
    /\ tick (snd (_get_current_price w asset s)) = S (tick s) + n.
Proof.
  destruct (price_cases w asset s) as [[p ->]| ->].
  { exists 0. simpl. rewrite Nat.add_0_r. auto with arith. }
  rewrite fetch_price_cases. simpl. rewrite app_nil_r.
  destruct (get_symbol_ticker w (S (tick s)) _) as [p1|]; simpl.
  { exists 1. repeat split; auto with arith; lia. }
  destruct (get_symbol_ticker w (S (S (tick s))) _) as [b1|]; simpl;
    [|exists 2; repeat split; auto with arith; lia].
  destruct (get_symbol_ticker w (S (S (S (tick s)))) _) as [b2|]; simpl;
    exists 3; repeat split; auto with arith; lia.
Qed.

(** ** Edge cases of the spot wallet source *)

(** A loop whose body raises on some item raises, there or before. *)
Lemma for_each_raises {Σ A} (xs : list A) (body : A -> M Σ unit) (bad : A) :
  In bad xs ->
  (forall s, exists e, fst (body bad s) = Raise e) ->
  forall s, exists e, fst (for_each xs body s) = Raise e.
Proof.
  intros Hin Hbad. induction xs as [|x xs IH]; [destruct Hin|].
  intros s. simpl. unfold bind.
  destruct Hin as [->|Hin].
  - destruct (Hbad s) as [e He].
    destruct (body bad s) as [[[]|e'] s1]; simpl in *; [discriminate|].
    now exists e'.
  - destruct (body x s) as [[[]|e'] s1]; simpl; [now apply IH|].
    now exists e'.
Qed.

Lemma unreadable_balance_raises (w : World) (b : balance) :
  unreadable_balance b ->
  forall ls, exists e, fst (spot_balance w b ls) = Raise e.
Proof.
  unfold unreadable_balance, spot_balance. intros Hbad ls.
  destruct (balance_asset b) as [a|]; simpl; [|now exists Exception].
  destruct Hbad as [HLD Hbad]. unfold bind at 1. simpl. rewrite HLD.
  destruct Hbad as [Hfree|[[free Hfree] Hlocked]].
  - rewrite Hfree. now exists Exception.
  - rewrite Hfree, Hlocked. now exists Exception.
Qed.

(** X7. One unreadable balance voids the whole spot list: if any entry of
    the account listing has a missing asset, or is not "LD"-prefixed and
    has an unreadable free or locked amount, [_get_spot_data] returns the
    empty list, whatever the other balances hold. *)
Theorem unreadable_balance_voids_spot_data (w : World) (s : state)
    (balances : list balance) (bad : balance) :
  get_account w (tick s) = Some balances ->
  In bad balances ->
  unreadable_balance bad ->
  fst (_get_spot_data w s) = Ok [].
Proof.
  intros Hacc Hin Hbad.
  unfold _get_spot_data, with_local, try_except.
  unfold bind at 1. unfold lift at 1, account_balances. simpl. rewrite Hacc.
  unfold bind.
  destruct (for_each_raises balances (spot_balance w) bad Hin
              (unreadable_balance_raises w bad Hbad)
              ([], consult [AccountCall] s)) as [e He].
  destruct (for_each balances (spot_balance w) _) as [[[]|e'] ls];
    simpl in *; [discriminate | reflexivity].
Qed.

Lemma idle_balance_skipped (w : World) (b : balance) (ls : list holding * state) :
  idle_balance b -> spot_balance w b ls = (Ok tt, ls).
Proof.
  intros (a & Ha & Hidle). unfold spot_balance. rewrite Ha.
  unfold bind at 1. simpl.
  destruct Hidle as [HLD|(free & locked & Hf & Hl & Htotal)].
  - now rewrite HLD.
  - destruct (String.prefix "LD" a); [reflexivity|].
    rewrite Hf, Hl. unfold bind. simpl. now rewrite Htotal.
Qed.

Lemma idle_balances_skipped (w : World) (balances : list balance) :
  Forall idle_balance balances ->
  forall ls, for_each balances (spot_balance w) ls = (Ok tt, ls).
Proof.
  induction 1 as [|b rest Hb Hrest IH]; intros ls.
  - reflexivity.
  - simpl. unfold bind. rewrite (idle_balance_skipped w b ls Hb).
    apply IH.
Qed.

(** X8. Balances that are "LD"-prefixed or whose total is not strictly
    positive cost nothing: when the account listing holds only such
    balances, [_get_spot_data] returns the empty list and its only network
    call is the account listing itself (no price is asked, the cache is
    untouched). *)
Theorem idle_balances_cost_no_price_call (w : World) (s : state)
    (balances : list balance) :
  get_account w (tick s) = Some balances ->
  Forall idle_balance balances ->
  _get_spot_data w s = (Ok [], consult [AccountCall] s).
Proof.
  intros Hacc Hidle.
  unfold _get_spot_data, with_local, try_except.
  unfold bind at 1. unfold lift at 1, account_balances. simpl. rewrite Hacc.
  unfold bind. now rewrite (idle_balances_skipped w balances Hidle).
Qed.

(** ** Edge cases of the two discoveries *)

(** A loop stopped by an item that raises without touching the store
    leaves what the items before it left. *)
Lemma for_each_stops {Σ A} (xs rest : list A) (body : A -> M Σ unit) (bad : A) :
  (forall s, exists e, body bad s = (Raise e, s)) ->
  forall s,
    snd (for_each (xs ++ bad :: rest) body s) = snd (for_each xs body s)
    /\ exists e, fst (for_each (xs ++ bad :: rest) body s) = Raise e.
Proof.
  intros Hbad. induction xs as [|x xs IH]; intros s; simpl; unfold bind.
  - destruct (Hbad s) as [e ->]. simpl. eauto.
  - destruct (body x s) as [[[]|e] s1]; simpl; [apply IH | eauto].
Qed.

Lemma bulk_row_unreadable (w : World) (pt : string) (bad : position)
    (ls : list holding * state) :
  pos_asset bad = None \/ pos_totalAmount bad = None ->
  bulk_row w pt bad ls = (Raise Exception, ls).
Proof.
  intros Hbad. unfold bulk_row.
  destruct (pos_asset bad) as [a|]; simpl; [|reflexivity].
  destruct Hbad as [Hbad|Hbad]; [discriminate|].
  unfold bind. simpl. now rewrite Hbad.
Qed.

Lemma targeted_row_unreadable (w : World) (a pt : string) (bad : position)
    (ls : list holding * state) :
  pos_totalAmount bad = None ->
  targeted_row w a pt bad ls = (Raise Exception, ls).
Proof.
  intros Hbad. unfold targeted_row, bind. now rewrite Hbad.
Qed.

(** X9. In the bulk discovery an unreadable row voids its endpoint: when
    the first answer is a 200 whose rows include one without asset or
    without a readable amount, the endpoint adds nothing to
    [all_positions] (not even the rows before it), and it is not asked
    again: that one request is the only one. *)
Theorem unreadable_row_voids_bulk_endpoint (w : World) (s : state)
    (product_type url : string) (all_positions : list holding)
    (rows : list position) (bad : position) :
  requests_get w (tick s) url None = HttpResponse 200 rows ->
  In bad rows ->
  pos_asset bad = None \/ pos_totalAmount bad = None ->
  exists s',
    bulk_endpoint w (product_type, url) (all_positions, s)
    = (Ok tt, (all_positions, s'))
    /\ http_calls (log s')
       = http_calls (log s) ++ [(url, None, HttpResponse 200 rows)].
Proof.
  intros Hget Hin Hbad.
  unfold bulk_endpoint, try_except. simpl.
  unfold bind at 1. unfold try_except_request, try_except.
  unfold bind at 1. unfold lift at 1, http_get. simpl. rewrite Hget. simpl.
  unfold bind at 1. unfold lift at 1. simpl.
  set (s1 := consult [HttpCall url None (HttpResponse 200 rows)] s).
  pose proof (bulk_rows_http w _ product_type rows s1 eq_refl) as Hhttp.
  pose proof (bulk_rows_only_Exception w product_type rows s1) as Hexn.
  assert (Hraise : exists e,
             fst (with_local []
                    (bind (for_each rows (bulk_row w product_type))
                       (fun _ => get_local)) s1) = Raise e).
  { unfold with_local, bind.
    destruct (for_each_raises rows (bulk_row w product_type) bad Hin
                (fun ls => ex_intro _ Exception
                             (f_equal fst (bulk_row_unreadable w product_type
                                             bad ls Hbad)))
                ([], s1)) as [e He].
    destruct (for_each rows _ ([], s1)) as [[[]|e'] ls]; simpl in *;
      [discriminate | eauto]. }
  destruct Hraise as [e He].
  destruct (with_local _ _ s1) as [[positions|e'] s2]; simpl in *;
    [discriminate|].
  rewrite (Hexn e' eq_refl). simpl.
  exists s2. split; [reflexivity|].
  unfold http_is in Hhttp. rewrite Hhttp. unfold s1.
  apply consult_http.
Qed.

(** X10. In the targeted lookup an unreadable row only stops the rows
    after it: when the first answer is a 200 whose rows are [good], then
    a row without a readable amount, then [rest], the endpoint leaves in
    [positions] exactly what processing [good] leaves, and [rest] is never
    looked at. *)
Theorem unreadable_row_keeps_earlier_targeted_rows (w : World) (s : state)
    (asset product_type url : string) (positions : list holding)
    (good rest : list position) (bad : position) :
  requests_get w (tick s) url (Some asset)
  = HttpResponse 200 (good ++ bad :: rest) ->
  pos_totalAmount bad = None ->
  let s1 := consult [HttpCall url (Some asset)
                       (HttpResponse 200 (good ++ bad :: rest))] s in
  targeted_endpoint w asset (product_type, url) (positions, s)
  = (Ok tt, snd (for_each good (targeted_row w asset product_type)
                   (positions, s1))).
Proof.
  intros Hget Hbad s1.
  unfold targeted_endpoint, try_except. simpl.
  unfold bind at 1. unfold try_except_request, try_except.
  unfold bind at 1. unfold lift at 1, http_get. simpl. rewrite Hget. simpl.
  fold s1. unfold bind at 1.
  destruct (for_each_stops good rest (targeted_row w asset product_type) bad
              (fun ls => ex_intro _ Exception
                           (targeted_row_unreadable w asset product_type
                              bad ls Hbad))
              (positions, s1)) as [Hstore [e He]].
  pose proof (only_Exception_for_each (good ++ bad :: rest) _
                (targeted_row_only_Exception w asset product_type)
                (positions, s1)) as Hexn.
  destruct (for_each (good ++ bad :: rest) _ (positions, s1))
    as [[[]|e'] ls]; simpl in *; [discriminate|].
  rewrite (Hexn e' eq_refl). simpl. now rewrite Hstore.
Qed.

Lemma after_requests_calls (w : World) (url : string)
    (asset_param : option string) (n : nat) :
  forall s,
    tick (after_requests w url asset_param n s) = tick s + n
    /\ _price_cache (after_requests w url asset_param n s) = _price_cache s
    /\ http_calls (log (after_requests w url asset_param n s))
       = http_calls (log s) ++ failed_calls w url asset_param n s.
Proof.
  unfold failed_calls.
  induction n as [|n IH]; intros s; simpl.
  - rewrite Nat.add_0_r, app_nil_r. auto.
  - destruct (IH (consult [HttpCall url asset_param
                             (requests_get w (tick s) url asset_param)] s))
      as (Ht & Hc & Hl).
    rewrite Ht, Hc, Hl. simpl. repeat split; [lia|].
    rewrite http_calls_app. simpl. rewrite <- app_assoc. simpl.
    rewrite Nat.add_0_r. do 2 f_equal.
    rewrite <- seq_shift, map_map. apply map_ext. intros k.
    now rewrite Nat.add_succ_r.
Qed.

Lemma bulk_attempts_exhausted (w : World) (pt url : string)
    (attempts : list nat) :
  forall l s,
    (forall k, k < length attempts ->
               retryable (requests_get w (tick s + k) url None)) ->
    bulk_attempts w pt url attempts (l, s)
    = (Ok tt, (l, after_requests w url None (length attempts) s)).
Proof.
  induction attempts as [|attempt rest IH]; intros l s Hfail.
  - reflexivity.
  - simpl. unfold bind at 1. unfold try_except_request, try_except.
    unfold bind at 1. unfold lift at 1, http_get. simpl.
    pose proof (Hfail 0 ltac:(simpl; lia)) as H0.
    rewrite Nat.add_0_r in H0.
    assert (Hrest : forall k, k < length rest ->
              retryable (requests_get w
                (tick (consult [HttpCall url None (requests_get w (tick s) url None)] s) + k)
                url None)).
    { intros k Hk. simpl. specialize (Hfail (S k) ltac:(simpl; lia)).
      now rewrite Nat.add_succ_r in Hfail. }
    destruct (requests_get w (tick s) url None) as [[|]|c rows|c e|];
      simpl in *.
    + now apply IH.
    + contradiction.
    + destruct (c =? 200)%Z eqn:Hc; [apply Z.eqb_eq in Hc; contradiction|].
      simpl. now apply IH.
    + destruct (c =? 200)%Z eqn:Hc.
      * destruct e; simpl; [now apply IH|].
        apply Z.eqb_eq in Hc. destruct H0; [contradiction | discriminate].
      * simpl. rewrite Hc. simpl. now apply IH.
    + contradiction.
Qed.

Lemma targeted_attempts_exhausted (w : World) (a pt url : string)
    (attempts : list nat) :
  forall l s,
    (forall k, k < length attempts ->
               retryable (requests_get w (tick s + k) url (Some a))) ->
    targeted_attempts w a pt url attempts (l, s)
    = (Ok tt, (l, after_requests w url (Some a) (length attempts) s)).
Proof.
  induction attempts as [|attempt rest IH]; intros l s Hfail.
  - reflexivity.
  - simpl. unfold bind at 1. unfold try_except_request, try_except.
    unfold bind at 1. unfold lift at 1, http_get. simpl.
    pose proof (Hfail 0 ltac:(simpl; lia)) as H0.
    rewrite Nat.add_0_r in H0.
    assert (Hrest : forall k, k < length rest ->
              retryable (requests_get w
                (tick (consult [HttpCall url (Some a)
                                  (requests_get w (tick s) url (Some a))] s) + k)
                url (Some a))).
    { intros k Hk. simpl. specialize (Hfail (S k) ltac:(simpl; lia)).
      now rewrite Nat.add_succ_r in Hfail. }
    destruct (requests_get w (tick s) url (Some a)) as [[|]|c rows|c e|];
      simpl in *.
    + now apply IH.
    + contradiction.
    + destruct (c =? 200)%Z eqn:Hc; [apply Z.eqb_eq in Hc; contradiction|].
      simpl. now apply IH.
    + destruct (c =? 200)%Z eqn:Hc.
      * destruct e; simpl; [now apply IH|].
        apply Z.eqb_eq in Hc. destruct H0; [contradiction | discriminate].
      * simpl. rewrite Hc. simpl. now apply IH.
    + contradiction.
Qed.

(** X11. Retries are exhausted, not cut short: an endpoint whose attempts
    all fail in a retryable way is asked exactly 3 times by the bulk
    discovery and exactly 2 times by a targeted lookup, in consecutive
    consultations; nothing is added to the list, no price is asked and the
    cache is untouched. *)
Theorem persistent_failure_exhausts_retries (w : World) (s : state)
    (asset product_type url : string) (found : list holding) :
  ((forall k, k < 3 -> retryable (requests_get w (tick s + k) url None)) ->
   exists s',
     bulk_endpoint w (product_type, url) (found, s) = (Ok tt, (found, s'))
     /\ tick s' = tick s + 3
     /\ _price_cache s' = _price_cache s
     /\ http_calls (log s') = http_calls (log s) ++ failed_calls w url None 3 s)
  /\ ((forall k, k < 2 ->
         retryable (requests_get w (tick s + k) url (Some asset))) ->
      exists s',
        targeted_endpoint w asset (product_type, url) (found, s)
        = (Ok tt, (found, s'))
        /\ tick s' = tick s + 2
        /\ _price_cache s' = _price_cache s
        /\ http_calls (log s')
           = http_calls (log s) ++ failed_calls w url (Some asset) 2 s).
Proof.
  split; intros Hfail.
  - exists (after_requests w url None 3 s). split.
    + unfold bulk_endpoint, try_except.
      change (fst (product_type, url)) with product_type.
      change (snd (product_type, url)) with url.
      now rewrite (bulk_attempts_exhausted w product_type url (seq 0 3) found s).
    + apply (after_requests_calls w url None 3 s).
  - exists (after_requests w url (Some asset) 2 s). split.
    + unfold targeted_endpoint, try_except.
      change (fst (product_type, url)) with product_type.
      change (snd (product_type, url)) with url.
      now rewrite (targeted_attempts_exhausted w asset product_type url
                     (seq 0 2) found s).
    + apply (after_requests_calls w url (Some asset) 2 s).
Qed.

(** ** How the two strategies meet *)

Lemma not_in_spec (a : string) (l : list string) :
  not_in a l = true <-> ~ In a l.
Proof.
  unfold not_in. rewrite negb_true_iff. split.
  - intros H Hin.
    assert (E : existsb (String.eqb a) l = true); [|congruence].
    apply existsb_exists. exists a. split; [exact Hin | apply String.eqb_refl].
  - intros H. destruct (existsb (String.eqb a) l) eqn:E; [|reflexivity].
    apply existsb_exists in E as (b & Hb & Heq).
    apply String.eqb_eq in Heq. subst b. contradiction.
Qed.

Lemma yields_impl {Σ A} (P Q : A -> Prop) (m : M Σ A) :
  (forall a, P a -> Q a) -> yields P m -> yields Q m.
Proof. intros HPQ Hm s a Ha. apply HPQ. exact (Hm s a Ha). Qed.

(** A targeted lookup reports the asset it was asked for, whatever the
    rows say. *)
Lemma asset_positions_asset (w : World) (a : string) :
  yields (Forall (fun h => asset h = a)) (_get_simple_earn_asset_positions w a).
Proof. apply asset_positions_emit_gen. reflexivity. Qed.

Lemma targeted_discovery_assets (w : World) (missing_assets : list string)
    (s : state) :
  Forall (fun h => In (asset h) missing_assets)
    (fst (targeted_discovery w missing_assets s)).
Proof.
  apply targeted_discovery_emit_gen. intros a Hin.
  eapply yields_impl; [|apply asset_positions_asset].
  intros l Hl. eapply List.Forall_impl; [|exact Hl].
  intros h Hh. simpl in Hh. now rewrite Hh.
Qed.

Lemma missing_after_spec (strategy_A : list holding) (a : string) :
  In a (missing_after strategy_A)
  <-> In a known_assets /\ ~ In a (map asset strategy_A).
Proof.
  unfold missing_after. rewrite List.filter_In, not_in_spec. tauto.
Qed.

(** X12. The two strategies never collide: every holding found by the
    targeted lookups has a known asset that the bulk discovery did not
    report, so the deduplication of [_get_earn_data] drops a targeted
    holding only in favour of an earlier targeted holding, and the result
    is the deduplicated bulk results followed by the deduplicated targeted
    results. *)
Theorem strategies_never_collide (w : World) (s : state) :
  exists strategy_A s1,
    _get_all_simple_earn_positions w s = (Ok strategy_A, s1)
    /\ let strategy_B :=
         targeted_discovery w (missing_after strategy_A) s1 in
       Forall (fun h => In (asset h) known_assets
                        /\ ~ In (asset h) (map asset strategy_A))
         (fst strategy_B)
       /\ _get_earn_data w s
          = (Ok (dedup_first strategy_A ++ dedup_first (fst strategy_B)),
             snd strategy_B).
Proof.
  destruct (earn_data_run w s) as (A & s1 & HA & Hrun). cbv zeta in Hrun.
  exists A, s1. split; [exact HA|]. cbv zeta.
  fold (missing_after A) in Hrun.
  assert (HB : Forall (fun h => In (asset h) known_assets
                                /\ ~ In (asset h) (map asset A))
                 (fst (targeted_discovery w (missing_after A) s1))).
  { eapply List.Forall_impl; [|apply targeted_discovery_assets].
    intros h Hh. now apply missing_after_spec. }
  split; [exact HB|].
  rewrite Hrun, reconcile_split. do 3 f_equal.
  apply filter_id. apply List.Forall_forall. intros h Hin.
  apply dedup_first_incl in Hin.
  apply not_in_spec.
  exact (proj2 (proj1 (List.Forall_forall _ _) HB h Hin)).
Qed.

(** X13. For an asset with a flexible position in the bulk discovery,
    the holding that [_get_earn_data] reports is one of those flexible
    positions: a locked or targeted position of the same asset never
    takes its place (and is not added to it). *)
Theorem flexible_position_shadows_the_rest (w : World) (s : state) :
  exists earn_data s',
    _get_earn_data w s = (Ok earn_data, s')
    /\ let flexible :=
         fst (endpoint_positions w ("FLEXIBLE", FLEXIBLE_URL) s) in
       Forall (fun h => In h flexible
                        \/ ~ In (asset h) (map asset flexible)) earn_data.
Proof.
  destruct (earn_data_run w s) as (A & s1 & HA & Hrun). cbv zeta in Hrun.
  eexists _, _. split; [exact Hrun|]. cbv zeta.
  pose proof (bulk_discovery_decomposes w s) as Hdec. cbv zeta in Hdec.
  rewrite Hdec in HA. injection HA as HA _. subst A.
  unfold reconcile. rewrite <- app_assoc.
  change (dedup_first (?x ++ ?y)) with (reconcile x y).
  rewrite reconcile_split.
  apply Forall_app. split; apply List.Forall_forall; intros h Hin.
  - left. now apply dedup_first_incl.
  - right. apply List.filter_In in Hin as [_ Hnot].
    now apply not_in_spec.
Qed.

Lemma asset_positions_calls (w : World) (a : string) (s : state) :
  exists calls,
    http_calls (log (snd (_get_simple_earn_asset_positions w a s)))
    = http_calls (log s) ++ calls
    /\ Forall (fun c => snd (fst c) = Some a) calls
    /\ length calls <= 4.
Proof.
  destruct (targeted_endpoint_calls w a ("FLEXIBLE", FLEXIBLE_URL) [] s)
    as (flexible & l1 & s1 & E1 & H1 & [Hlen1 _]).
  destruct (targeted_endpoint_calls w a ("LOCKED", LOCKED_URL) l1 s1)
    as (locked & l2 & s2 & E2 & H2 & [Hlen2 _]).
  exists (map (fun o => (FLEXIBLE_URL, Some a, o)) flexible
          ++ map (fun o => (LOCKED_URL, Some a, o)) locked).
  split; [|split].
  - unfold _get_simple_earn_asset_positions, with_local, try_except, endpoints.
    simpl. unfold bind. rewrite E1, E2. simpl.
    rewrite H2, H1. simpl. now rewrite <- app_assoc.
  - apply Forall_app. split; apply List.Forall_forall; intros c Hin;
      apply in_map_iff in Hin as (o & <- & _); reflexivity.
  - rewrite length_app, !length_map. lia.
Qed.

Lemma known_assets_NoDup : List.NoDup known_assets.
Proof.
  unfold known_assets.
  repeat (constructor; [simpl; intuition discriminate|]). constructor.
Qed.

Lemma missing_after_NoDup (strategy_A : list holding) :
  List.NoDup (missing_after strategy_A).
Proof. apply List.NoDup_filter, known_assets_NoDup. Qed.

Lemma missing_after_known (strategy_A : list holding) (a : string) :
  In a (missing_after strategy_A) -> In a known_assets.
Proof. intros H. now apply List.filter_In in H as [H _]. Qed.

Lemma calls_for_app (a : string)
    (c1 c2 : list (string * option string * http_outcome)) :
  calls_for a (c1 ++ c2) = calls_for a c1 ++ calls_for a c2.
Proof. apply List.filter_app. Qed.

Lemma calls_for_length (a : string)
    (calls : list (string * option string * http_outcome)) :
  length (calls_for a calls) <= length calls.
Proof. apply List.filter_length_le. Qed.

(** No request filtered to an asset of [assets] is filtered to an asset
    that [assets] lacks. *)
Lemma calls_for_absent (a : string) (assets : list string)
    (calls : list (string * option string * http_outcome)) :
  ~ In a assets -> Forall (asks_one_of assets) calls -> calls_for a calls = [].
Proof.
  intros Hnotin Hall. apply filter_none.
  eapply List.Forall_impl; [|exact Hall].
  intros call (b & Hb & Hin). rewrite Hb.
  apply String.eqb_neq. intros ->. contradiction.
Qed.

(** The targeted lookups of distinct assets: every request is filtered to
    one of them, and each asset gets at most 4 requests. *)
Lemma targeted_discovery_budget (w : World) (missing_assets : list string) :
  List.NoDup missing_assets ->
  forall s, exists calls,
    http_calls (log (snd (targeted_discovery w missing_assets s)))
    = http_calls (log s) ++ calls
    /\ Forall (asks_one_of missing_assets) calls
    /\ (forall a, length (calls_for a calls) <= 4)
    /\ length calls <= 4 * length missing_assets.
Proof.
  induction 1 as [|a rest Hnotin Hnodup IH]; intros s; simpl.
  - exists []. rewrite app_nil_r. repeat split; auto.
  - destruct (asset_positions_calls w a s) as (c1 & H1 & Hall1 & Hlen1).
    destruct (_get_simple_earn_asset_positions w a s) as [r s1].
    destruct (IH s1) as (c2 & H2 & Hall2 & Hper2 & Hlen2).
    destruct (targeted_discovery w rest s1) as [more s2]. simpl in *.
    exists (c1 ++ c2). split; [|split; [|split]].
    + rewrite H2, H1. now rewrite <- app_assoc.
    + apply Forall_app. split.
      * eapply List.Forall_impl; [|exact Hall1].
        intros c Hc. exists a. split; [exact Hc | now left].
      * eapply List.Forall_impl; [|exact Hall2].
        intros c (b & Hb & Hin). exists b. split; [exact Hb | now right].
    + intros b. rewrite calls_for_app, length_app.
      destruct (String.eqb_spec b a) as [->|Hne].
      * rewrite (calls_for_absent a rest c2 Hnotin Hall2). simpl.
        pose proof (calls_for_length a c1). lia.
      * rewrite (calls_for_absent b [a] c1). { simpl. apply Hper2. }
        { intros [->|[]]. now apply Hne. }
        eapply List.Forall_impl; [|exact Hall1].
        intros c Hc. exists a. split; [exact Hc | now left].
    + rewrite length_app. lia.
Qed.

(** X14. The targeted phase of [_get_earn_data] asks only for what is
    missing: every request it makes after the bulk discovery is filtered
    to a known asset that the bulk results lack, and each such asset gets
    at most 4 of them (2 endpoints, 2 attempts each). *)
Theorem targeted_phase_asks_only_missing_assets (w : World) (s : state) :
  exists strategy_A s1 calls,
    _get_all_simple_earn_positions w s = (Ok strategy_A, s1)
    /\ http_calls (log (snd (_get_earn_data w s)))
       = http_calls (log s1) ++ calls
    /\ Forall (asks_one_of (missing_after strategy_A)) calls
    /\ (forall a, length (calls_for a calls) <= 4)
    /\ length calls <= 4 * length (missing_after strategy_A).
Proof.
  destruct (earn_data_run w s) as (A & s1 & HA & Hrun). cbv zeta in Hrun.
  fold (missing_after A) in Hrun.
  destruct (targeted_discovery_budget w (missing_after A)
              (missing_after_NoDup A) s1)
    as (calls & Hcalls & Hall & Hper & Hlen).
  exists A, s1, calls. rewrite Hrun. simpl. auto.
Qed.

(** ** The single-request listing *)

(** X15. [_get_simple_earn_positions] never raises and never retries: it
    sends at most one request, to the endpoint of its product type: exactly
    one when the query can be signed, and none when the signature raises.
    It returns the empty list unless that request is answered with a 200
    whose body it can read. *)
Theorem single_listing_never_retries (w : World) (product_type : string)
    (s : state) :
  exists positions s',
    _get_simple_earn_positions w product_type s = (Ok positions, s')
    /\ http_calls (log s')
       = http_calls (log s)
         ++ requests_sent (positions_url product_type) None
              (requests_get w (tick s) (positions_url product_type) None)
    /\ (requests_get w (tick s) (positions_url product_type) None
        = SigningRaises -> s' = s)
    /\ (no_success (requests_get w (tick s) (positions_url product_type) None)
        -> positions = []).
Proof.
  unfold _get_simple_earn_positions, try_except, bind, http_get.
  cbv zeta. cbn [fst snd].
  set (url := positions_url product_type).
  set (o := requests_get w (tick s) url None).
  set (s1 := consult [HttpCall url None o] s).
  assert (Hs1 : http_calls (log s1) = http_calls (log s) ++ [(url, None, o)])
    by apply consult_http.
  destruct o as [e|c rows|c e|] eqn:Ho; simpl.
  - exists [], s1. repeat split; auto. discriminate.
  - destruct (c =? 200)%Z eqn:Hc.
    + pose proof (bulk_rows_http w _ product_type rows s1 eq_refl) as Hrows.
      unfold http_is in Hrows.
      apply Z.eqb_eq in Hc.
      destruct (with_local _ _ s1) as [[positions|e] s2]; simpl in *.
      * exists positions, s2. rewrite Hrows. repeat split; auto;
          [discriminate | intros Hne; contradiction].
      * exists [], s2. rewrite Hrows. repeat split; auto. discriminate.
    + exists [], s1. repeat split; auto. discriminate.
  - destruct (c =? 200)%Z eqn:Hc; simpl; try rewrite Hc;
      exists [], s1; repeat split; auto; discriminate.
  - exists [], s. rewrite app_nil_r. repeat split; auto.
Qed.

(** At a concrete input: without a secret key nothing is sent. *)
Lemma single_listing_never_retries_witness :
  requests_get no_secret_key (tick initial_state) (positions_url "LOCKED") None
  = SigningRaises
  /\ exists positions s',
       _get_simple_earn_positions no_secret_key "LOCKED" initial_state
       = (Ok positions, s')
       /\ http_calls (log s')
          = http_calls (log initial_state)
            ++ requests_sent (positions_url "LOCKED") None
                 (requests_get no_secret_key (tick initial_state)
                    (positions_url "LOCKED") None)
       /\ (requests_get no_secret_key (tick initial_state)
             (positions_url "LOCKED") None = SigningRaises ->
           s' = initial_state)
       /\ (no_success (requests_get no_secret_key (tick initial_state)
                         (positions_url "LOCKED") None)
           -> positions = []).
Proof.
  split; [reflexivity|].
  apply (single_listing_never_retries no_secret_key "LOCKED" initial_state).
Defined.



(** ** Partial failure of the aggregation *)

(** X17. A source that fails entirely is absorbed silently: when the
    account listing raises, the portfolio is the sorted, filtered Simple
    Earn list alone, and when no Simple Earn request succeeds it is the
    sorted, filtered spot list alone. *)
Theorem one_source_down_leaves_the_other (w : World) (s : state) :
  (get_account w (tick s) = None ->
   exists earn_data s2,
     _get_earn_data w (consult [AccountCall] s) = (Ok earn_data, s2)
     /\ get_portfolio_data w s = (Ok (sort_desc (displayed earn_data)), s2))
  /\ (http_down w ->
      exists spot_data s1,
        _get_spot_data w s = (Ok spot_data, s1)
        /\ fst (get_portfolio_data w s) = Ok (sort_desc (displayed spot_data))).
Proof.
  split.
  - intros Hdown.
    assert (Hspot : _get_spot_data w s = (Ok [], consult [AccountCall] s)).
    { unfold _get_spot_data, with_local, try_except, bind, lift,
        account_balances. simpl. now rewrite Hdown. }
    destruct (never_raises_run _ (consult [AccountCall] s)
                (earn_data_never_raises w)) as (earn_data & s2 & Hearn).
    exists earn_data, s2. split; [exact Hearn|].
    unfold get_portfolio_data, try_except, bind. now rewrite Hspot, Hearn.
  - intros Hdown.
    destruct (portfolio_run w s)
      as (spot_data & s1 & earn_data & s2 & Hspot & Hearn & Hrun).
    exists spot_data, s1. split; [exact Hspot|].
    rewrite Hrun. simpl.
    pose proof (earn_data_down w s1 Hdown) as He. rewrite Hearn in He.
    injection He as ->. now rewrite app_nil_r.
Qed.

(** ** The average purchase price *)

Section AveragePriceFacts.

Variable w : World.
Variable get_my_trades : nat -> string -> option (list trade).
Variable sum : list float -> float.

Lemma average_price_on_history (asset : string) (s : state)
    (trades : list trade) (s1 : state) :
  history get_my_trades asset s = (Some trades, s1) ->
  _get_average_price w get_my_trades sum asset s
  = try_except
      (bind (average_of_buys sum trades)
         (fun avg_price =>
            match avg_price with
            | Some avg_price => ret avg_price
            | None =>
                bind (_get_current_price w asset)
                  (fun current_price =>
                     if gtb current_price 0 then ret current_price
                     else ret 0%float)
            end))
      (fun _ => ret 0%float) s1.
Proof.
  unfold history, _get_average_price, try_except.
  unfold bind at 1. unfold my_trades at 1. cbn [fst snd tick consult].
  destruct (get_my_trades (tick s) (asset ++ "USDT")%string)
    as [[|t ts]|]; cbn [truthy fst snd].
  - unfold bind at 1. unfold my_trades at 1. cbn [fst snd tick consult].
    intros [= -> <-]. reflexivity.
  - unfold bind at 1. unfold ret at 1. intros [= <- <-]. reflexivity.
  - discriminate.
Qed.

(** X18. When the history holds buys with readable amounts and a
    positive total quantity, [_get_average_price] returns total cost over
    total quantity as it is, whichever pair the history came from (a
    BTC-quoted average is not converted), and asks no price: the log and
    the cache are what they were. *)
Theorem average_price_from_history (asset : string) (s s1 : state)
    (trades buy_trades : list trade) (costs quantities : list float) :
  history get_my_trades asset s = (Some trades, s1) ->
  buyers trades = Some buy_trades ->
  buy_trades <> [] ->
  amounts quoteQty buy_trades = Some costs ->
  amounts qty buy_trades = Some quantities ->
  gtb (sum quantities) 0 = true ->
  fst (_get_average_price w get_my_trades sum asset s)
  = Ok (sum costs / sum quantities)%float
  /\ log (snd (_get_average_price w get_my_trades sum asset s)) = log s
  /\ _price_cache (snd (_get_average_price w get_my_trades sum asset s))
     = _price_cache s.
Proof.
  intros Hhist Hbuy Hne Hcost Hqty Hpos.
  rewrite (average_price_on_history asset s trades s1 Hhist).
  assert (Htrades : truthy trades = true).
  { destruct trades; [|reflexivity]. simpl in Hbuy. congruence. }
  assert (Hbuys : truthy buy_trades = true)
    by (destruct buy_trades; [congruence | reflexivity]).
  unfold try_except, bind, average_of_buys. rewrite Htrades, Hbuy.
  unfold bind. simpl. rewrite Hbuys, Hcost. simpl. rewrite Hqty. simpl.
  rewrite Hpos. simpl.
  unfold history in Hhist.
  destruct (get_my_trades (tick s) (asset ++ "USDT")%string) as [[|t ts]|];
    injection Hhist as _ <-; simpl; rewrite ?app_nil_r; auto.
Qed.

(** X19. When the history holds no buy at all (it may be empty),
    [_get_average_price] falls back on the current price: it returns what
    [_get_current_price] returns if that is strictly positive, else
    0.0. *)
Theorem average_price_falls_back_on_current_price (asset : string)
    (s s1 : state) (trades : list trade) :
  history get_my_trades asset s = (Some trades, s1) ->
  buyers trades = Some [] ->
  exists current_price,
    fst (_get_current_price w asset s1) = Ok current_price
    /\ fst (_get_average_price w get_my_trades sum asset s)
       = Ok (if gtb current_price 0 then current_price else 0%float).
Proof.
  intros Hhist Hbuy.
  rewrite (average_price_on_history asset s trades s1 Hhist).
  destruct (never_raises_run _ s1 (price_never_raises w asset))
    as (p & s2 & Hprice).
  exists p. rewrite Hprice. split; [reflexivity|].
  unfold try_except, bind, average_of_buys.
  destruct (truthy trades); [rewrite Hbuy|]; simpl; rewrite Hprice;
    destruct (gtb p 0); reflexivity.
Qed.

End AveragePriceFacts.

(** ** More runs in concrete environments *)

(** At a concrete input: BTC resolved on an empty cache, then again. *)
Lemma fetched_price_is_cached_and_reused_witness :
  cache_miss both_silos "BTC" initial_state
  /\ fetched both_silos "BTC" initial_state = Some 50000%float
  /\ fst (_get_current_price both_silos "BTC" initial_state) = Ok 50000%float
  /\ fst (_get_current_price both_silos "BTC"
            (snd (_get_current_price both_silos "BTC" initial_state)))
     = Ok 50000%float.
Proof.
  assert (H1 : cache_miss both_silos "BTC" initial_state) by exact I.
  assert (H2 : fetched both_silos "BTC" initial_state = Some 50000%float)
    by reflexivity.
  destruct (fetched_price_is_cached_and_reused both_silos "BTC" initial_state
              _ H1 H2) as (Hret & _ & Hlater).
  split; [exact H1|]. split; [exact H2|]. split; [exact Hret|].
  exact (proj1 (Hlater _ eq_refl eq_refl)).
Defined.

(** At a concrete input: an entry for BTC survives a failed resolution of
    it and every resolution of another asset. *)
Lemma resolution_touches_one_cache_entry_witness :
  _price_cache (snd (_get_current_price all_down "ETH" warm_cache)) !! "BTC"
  = _price_cache warm_cache !! "BTC".
Proof.
  apply (proj1 (resolution_touches_one_cache_entry all_down "ETH" warm_cache)).
  discriminate.
Defined.

(** At a concrete input: BTC is readable, ETH is not. *)
Lemma unreadable_balance_voids_spot_data_witness :
  get_account broken_wallet (tick initial_state)
  = Some [mk_balance (Some "BTC") (Some 1%float) (Some 0.5%float);
          mk_balance (Some "ETH") None (Some 1%float)]
  /\ unreadable_balance (mk_balance (Some "ETH") None (Some 1%float))
  /\ fst (_get_spot_data broken_wallet initial_state) = Ok [].
Proof.
  assert (H1 : get_account broken_wallet (tick initial_state)
               = Some [mk_balance (Some "BTC") (Some 1%float) (Some 0.5%float);
                       mk_balance (Some "ETH") None (Some 1%float)])
    by reflexivity.
  assert (H2 : unreadable_balance (mk_balance (Some "ETH") None (Some 1%float)))
    by (split; [reflexivity | left; reflexivity]).
  split; [exact H1|]. split; [exact H2|].
  apply (unreadable_balance_voids_spot_data broken_wallet initial_state _
           (mk_balance (Some "ETH") None (Some 1%float)) H1);
    [right; left; reflexivity | exact H2].
Defined.

(** At a concrete input: LDO and an empty ETH balance. *)
Lemma idle_balances_cost_no_price_call_witness :
  Forall idle_balance
    [mk_balance (Some "LDO") (Some 7%float) (Some 0%float);
     mk_balance (Some "ETH") (Some 0%float) (Some 0%float)]
  /\ log (snd (_get_spot_data idle_wallet initial_state)) = [AccountCall].
Proof.
  assert (H : Forall idle_balance
                [mk_balance (Some "LDO") (Some 7%float) (Some 0%float);
                 mk_balance (Some "ETH") (Some 0%float) (Some 0%float)]).
  { constructor; [|constructor; [|constructor]].
    - exists "LDO". split; [reflexivity | left; reflexivity].
    - exists "ETH". split; [reflexivity|]. right.
      exists 0%float, 0%float. repeat split; reflexivity. }
  split; [exact H|].
  now rewrite (idle_balances_cost_no_price_call idle_wallet initial_state _
                 eq_refl H).
Defined.

(** At a concrete input: the row without fields voids the BTC row before
    it. *)
Lemma unreadable_row_voids_bulk_endpoint_witness :
  In (mk_position None None None)
    [mk_position (Some "BTC") (Some 2%float) (Some 0.5%float);
     mk_position None None None;
     mk_position (Some "ETH") (Some 1%float) (Some 0.5%float)]
  /\ fst (snd (bulk_endpoint broken_rows ("FLEXIBLE", FLEXIBLE_URL)
                 ([], initial_state))) = [].
Proof.
  assert (H : In (mk_position None None None)
                [mk_position (Some "BTC") (Some 2%float) (Some 0.5%float);
                 mk_position None None None;
                 mk_position (Some "ETH") (Some 1%float) (Some 0.5%float)])
    by (right; left; reflexivity).
  split; [exact H|].
  destruct (unreadable_row_voids_bulk_endpoint broken_rows initial_state
              "FLEXIBLE" FLEXIBLE_URL [] _ _ eq_refl H (or_introl eq_refl))
    as (s' & Hrun & _).
  now rewrite Hrun.
Defined.

(** At a concrete input: the BTC row before the unreadable one is kept. *)
Lemma unreadable_row_keeps_earlier_targeted_rows_witness :
  pos_totalAmount (mk_position None None None) = None
  /\ fst (snd (targeted_endpoint broken_rows "BTC" ("FLEXIBLE", FLEXIBLE_URL)
                 ([], initial_state)))
     = [earn_holding "BTC" 2 50000 "FLEXIBLE" 50].
Proof.
  split; [reflexivity|].
  rewrite (unreadable_row_keeps_earlier_targeted_rows broken_rows
             initial_state "BTC" "FLEXIBLE" FLEXIBLE_URL []
             [mk_position (Some "BTC") (Some 2%float) (Some 0.5%float)]
             [mk_position (Some "ETH") (Some 1%float) (Some 0.5%float)]
             (mk_position None None None) eq_refl eq_refl).
  vm_compute. reflexivity.
Defined.

(** At a concrete input: nothing answers. *)
Lemma persistent_failure_exhausts_retries_witness :
  (forall k, k < 3 ->
     retryable (requests_get all_down (tick initial_state + k)
                  FLEXIBLE_URL None))
  /\ exists s',
       bulk_endpoint all_down ("FLEXIBLE", FLEXIBLE_URL) ([], initial_state)
       = (Ok tt, ([], s'))
       /\ tick s' = 3.
Proof.
  assert (H : forall k, k < 3 ->
                retryable (requests_get all_down (tick initial_state + k)
                             FLEXIBLE_URL None)) by (intros k _; exact I).
  split; [exact H|].
  destruct (proj1 (persistent_failure_exhausts_retries all_down initial_state
                     "BTC" "FLEXIBLE" FLEXIBLE_URL []) H)
    as (s' & Hrun & Htick & _).
  exists s'. split; [exact Hrun | exact Htick].
Defined.


(** At concrete inputs: the account listing raises, or no request
    succeeds. *)
Lemma one_source_down_leaves_the_other_witness :
  (get_account earn_only (tick initial_state) = None
   /\ map source (match fst (get_portfolio_data earn_only initial_state) with
                  | Ok portfolio => portfolio
                  | Raise _ => []
                  end) = ["Simple Earn"])
  /\ (http_down spot_only
      /\ map source (match fst (get_portfolio_data spot_only initial_state) with
                     | Ok portfolio => portfolio
                     | Raise _ => []
                     end) = ["Spot"]).
Proof.
  split.
  - split; [reflexivity|].
    destruct (proj1 (one_source_down_leaves_the_other earn_only initial_state)
                eq_refl) as (earn_data & s2 & Hearn & Hrun).
    rewrite Hrun. simpl.
    assert (E : earn_data = [earn_holding "BTC" 2 50000 "FLEXIBLE" 50]).
    { assert (H : fst (_get_earn_data earn_only
                         (consult [AccountCall] initial_state))
                  = Ok [earn_holding "BTC" 2 50000 "FLEXIBLE" 50])
        by (vm_compute; reflexivity).
      rewrite Hearn in H. simpl in H. congruence. }
    rewrite E. vm_compute. reflexivity.
  - assert (H : http_down spot_only) by (intros t url a; exact I).
    split; [exact H|].
    destruct (proj2 (one_source_down_leaves_the_other spot_only initial_state)
                H) as (spot_data & s1 & Hspot & Hrun).
    rewrite Hrun.
    assert (E : spot_data = [spot_holding "BTC" 1.5 50000]).
    { assert (H' : fst (_get_spot_data spot_only initial_state)
                   = Ok [spot_holding "BTC" 1.5 50000])
        by (vm_compute; reflexivity).
      rewrite Hspot in H'. simpl in H'. congruence. }
    rewrite E. vm_compute. reflexivity.
Defined.

(** At a concrete input: XYZ was bought twice against BTC, 3 BTC for 4
    XYZ in all. *)
Lemma average_price_from_history_witness :
  history xyz_trades "XYZ" initial_state
  = (Some [mk_trade (Some true) (Some 1%float) (Some 2%float);
           mk_trade (Some false) (Some 9%float) (Some 9%float);
           mk_trade (Some true) (Some 2%float) (Some 2%float)],
     consult [] (consult [] initial_state))
  /\ gtb (sum_left [2%float; 2%float]) 0 = true
  /\ fst (_get_average_price spot_only xyz_trades sum_left "XYZ" initial_state)
     = Ok 0.75%float.
Proof.
  assert (H1 : history xyz_trades "XYZ" initial_state
               = (Some [mk_trade (Some true) (Some 1%float) (Some 2%float);
                        mk_trade (Some false) (Some 9%float) (Some 9%float);
                        mk_trade (Some true) (Some 2%float) (Some 2%float)],
                  consult [] (consult [] initial_state))) by reflexivity.
  assert (H2 : gtb (sum_left [2%float; 2%float]) 0 = true) by reflexivity.
  split; [exact H1|]. split; [exact H2|].
  refine (proj1 (average_price_from_history spot_only xyz_trades sum_left
                   "XYZ" initial_state _ _
                   [mk_trade (Some true) (Some 1%float) (Some 2%float);
                    mk_trade (Some true) (Some 2%float) (Some 2%float)]
                   [1%float; 2%float] [2%float; 2%float]
                   H1 eq_refl _ eq_refl eq_refl H2)).
  discriminate.
Defined.

(** At a concrete input: no trade of BTC at all, and BTC is priced. *)
Lemma average_price_falls_back_on_current_price_witness :
  history xyz_trades "BTC" initial_state
  = (Some [], consult [] (consult [] initial_state))
  /\ fst (_get_average_price spot_only xyz_trades sum_left "BTC" initial_state)
     = Ok 50000%float.
Proof.
  assert (H1 : history xyz_trades "BTC" initial_state
               = (Some [], consult [] (consult [] initial_state)))
    by reflexivity.
  split; [exact H1|].
  destruct (average_price_falls_back_on_current_price spot_only xyz_trades
              sum_left "BTC" initial_state _ [] H1 eq_refl)
    as (p & Hp & Hrun).
  rewrite Hrun.
  assert (E : p = 50000%float).
  { assert (H : fst (_get_current_price spot_only "BTC"
                       (consult [] (consult [] initial_state)))
                = Ok 50000%float) by reflexivity.
    rewrite Hp in H. congruence. }
  rewrite E. reflexivity.
Defined.

(** ** The order of the whole list *)

Lemma SFcompare_finite_spec (s1 s2 : bool) (m1 m2 : positive) (e1 e2 : Z) :
  SFcompare (S754_finite s1 m1 e1) (S754_finite s2 m2 e2)
  = Some (match s1, s2 with
          | true, false => Lt
          | false, true => Gt
          | false, false =>
              match (e1 ?= e2)%Z with
              | Lt => Lt | Gt => Gt | Eq => (m1 ?= m2)%positive
              end
          | true, true =>
              match (e1 ?= e2)%Z with
              | Lt => Gt | Gt => Lt | Eq => CompOpp (m1 ?= m2)%positive
              end
          end).
Proof. reflexivity. Qed.

Lemma SFleb_trans (a b c : spec_float) :
  SFleb a b = true -> SFleb b c = true -> SFleb a c = true.
Proof.
  unfold SFleb.
  destruct a as [sa|sa| |sa ma ea], b as [sb|sb| |sb mb eb],
    c as [sc|sc| |sc mc ec];
    rewrite ?SFcompare_finite_spec;
    try (simpl; congruence);
    try (simpl; destruct sa; try destruct sb; try destruct sc;
         simpl; congruence);
    try (simpl; destruct sb; try destruct sc; simpl; congruence).
  all: destruct sa, sb, sc; try (simpl; congruence);
    try (destruct (Z.compare_spec ea eb), (Z.compare_spec eb ec);
         simpl; congruence);
    destruct (Z.compare_spec ea eb), (Z.compare_spec eb ec),
      (Z.compare_spec ea ec); try lia; try (simpl; congruence);
    destruct (Pos.compare_spec ma mb), (Pos.compare_spec mb mc),
      (Pos.compare_spec ma mc); subst; try lia; simpl; congruence.
Qed.

Lemma geb_trans (x y z : float) :
  geb x y = true -> geb y z = true -> geb x z = true.
Proof.
  unfold geb. rewrite !FloatAxioms.leb_spec. intros Hxy Hyz.
  exact (SFleb_trans _ _ _ Hyz Hxy).
Qed.

Lemma geb_refl_above (lo x : float) :
  PrimFloat.leb lo x = true -> geb x x = true.
Proof.
  intros H. apply (not_ltb_geb lo); auto.
  rewrite FloatAxioms.ltb_spec. rewrite FloatAxioms.leb_spec in H.
  unfold SFltb, SFleb in *.
  destruct (Prim2SF x) as [sx|sx| |sx mx ex], (Prim2SF lo); simpl in *;
    try congruence; try (destruct sx; reflexivity).
  all: destruct sx; rewrite ?Z.compare_refl, ?Pos.compare_cont_refl;
    reflexivity.
Qed.

Lemma chain_desc_ranked (l : list holding) :
  Forall above_dust l -> chain_desc l -> ranked l.
Proof.
  intros Hdust Hchain.
  assert (Hhead : forall x l', chain_desc (x :: l') ->
            Forall (fun y => geb (current_value x) (current_value y) = true) l').
  { intros x l'. revert x.
    induction l' as [|y l' IH]; intros x H; [constructor|].
    inversion H as [| |? ? ? Hxy Hrest]; subst.
    constructor; [exact Hxy|].
    eapply List.Forall_impl; [|apply (IH y Hrest)].
    intros z Hz. exact (geb_trans _ _ _ Hxy Hz). }
  induction l as [|x l IH]; intros i j a b Hij Ha Hb; [discriminate|].
  apply Forall_cons in Hdust as [Hx Hdust].
  destruct i as [|i]; simpl in Ha.
  - injection Ha as <-. destruct j as [|j]; simpl in Hb.
    + injection Hb as <-. exact (geb_refl_above 1 _ Hx).
    + apply (proj1 (List.Forall_forall _ _) (Hhead x l Hchain)).
      apply list_elem_of_In. eapply list_elem_of_lookup_2. exact Hb.
  - destruct j as [|j]; [lia|]. simpl in Hb.
    apply (IH Hdust) with (i := i) (j := j); auto; [|lia].
    inversion Hchain; subst; [constructor | assumption].
Qed.

(** X20. The returned portfolio is ranked as a whole: every entry is at
    least as valuable as every entry after it, so the first row is the
    largest holding and the last the smallest. *)
Theorem portfolio_ranked_by_value (w : World) (s : state) :
  exists portfolio s',
    get_portfolio_data w s = (Ok portfolio, s') /\ ranked portfolio.
Proof.
  destruct (portfolio_run w s)
    as (spot_data & s1 & earn_data & s2 & _ & _ & Hrun).
  eexists _, _. split; [exact Hrun|].
  apply chain_desc_ranked.
  - eapply Permutation_Forall; [|apply displayed_above_dust].
    symmetry. apply sort_desc_perm.
  - apply sort_desc_chain, displayed_above_dust.
Qed.

(** ** The request budget of one aggregation *)

Lemma spot_balance_http (w : World) H (b : balance) :
  preserves (fun ls => http_is H (snd ls)) (spot_balance w b).
Proof.
  unfold spot_balance.
  apply preserves_bind; [apply preserves_field|]. intros a.
  destruct (String.prefix "LD" a); [apply preserves_ret|].
  apply preserves_bind; [apply preserves_field|]. intros free.
  apply preserves_bind; [apply preserves_field|]. intros locked.
  destruct (gtb _ 0); [|apply preserves_ret].
  apply preserves_bind.
  { apply (preserves_lift_global (http_is H)), price_http. }
  intros p. destruct (gtb p 0); [|apply preserves_ret].
  apply (preserves_append_global (http_is H)).
Qed.

(** The spot source makes no request to the Simple Earn endpoints. *)
Lemma spot_data_http (w : World) H : preserves (http_is H) (_get_spot_data w).
Proof.
  apply preserves_with_local, preserves_try_except;
    [|intros _; apply preserves_ret].
  apply preserves_bind.
  - apply (preserves_lift_global (http_is H)).
    intros s Hs. unfold http_is, account_balances in *. simpl.
    rewrite http_calls_app, Hs. simpl. apply app_nil_r.
  - intros balances. apply preserves_bind; [|intros _; apply preserves_get_local].
    apply preserves_for_each. intros b. apply spot_balance_http.
Qed.

Lemma all_positions_unfiltered (w : World) (s : state) :
  exists calls,
    http_calls (log (snd (_get_all_simple_earn_positions w s)))
    = http_calls (log s) ++ calls
    /\ Forall (fun call => snd (fst call) = None) calls
    /\ length calls <= 6.
Proof.
  destruct (bulk_endpoint_calls w ("FLEXIBLE", FLEXIBLE_URL) [] s)
    as (flexible & l1 & s1 & E1 & H1 & [Hlen1 _]).
  destruct (bulk_endpoint_calls w ("LOCKED", LOCKED_URL) l1 s1)
    as (locked & l2 & s2 & E2 & H2 & [Hlen2 _]).
  exists (map (fun o => (FLEXIBLE_URL, None, o)) flexible
          ++ map (fun o => (LOCKED_URL, None, o)) locked).
  split; [|split].
  - unfold _get_all_simple_earn_positions, with_local, try_except, endpoints.
    simpl. unfold bind. rewrite E1, E2. simpl.
    rewrite H2, H1. simpl. now rewrite <- app_assoc.
  - apply Forall_app. split; apply List.Forall_forall; intros c Hin;
      apply in_map_iff in Hin as (o & <- & _); reflexivity.
  - rewrite length_app, !length_map. lia.
Qed.

Lemma missing_after_length (strategy_A : list holding) :
  length (missing_after strategy_A) <= 14.
Proof.
  unfold missing_after.
  etransitivity; [apply List.filter_length_le | reflexivity].
Qed.

(** X21. One aggregation makes at most 62 requests to the Simple Earn
    endpoints.  The spot source makes none; the bulk discovery makes at
    most 6, none of them filtered to an asset (2 endpoints, 3 attempts);
    the lookups that follow make at most 4 for each of the at most 14
    known assets, and every one of their requests is filtered to a known
    asset. *)
Theorem aggregation_request_budget (w : World) (s : state) :
  exists spot_data s1 bulk targeted,
    _get_spot_data w s = (Ok spot_data, s1)
    /\ http_calls (log s1) = http_calls (log s)
    /\ http_calls (log (snd (_get_all_simple_earn_positions w s1)))
       = http_calls (log s1) ++ bulk
    /\ http_calls (log (snd (get_portfolio_data w s)))
       = http_calls (log s) ++ bulk ++ targeted
    /\ Forall (fun call => snd (fst call) = None) bulk
    /\ length bulk <= 6
    /\ Forall (asks_one_of known_assets) targeted
    /\ (forall a, length (calls_for a targeted) <= 4)
    /\ length targeted <= 4 * length known_assets
    /\ length (bulk ++ targeted) <= 62.
Proof.
  destruct (portfolio_run w s)
    as (spot_data & s1 & earn_data & s2 & Hspot & Hearn & Hrun).
  rewrite Hrun. simpl.
  pose proof (spot_data_http w _ s eq_refl) as Hs1.
  rewrite Hspot in Hs1. unfold http_is in Hs1. simpl in Hs1.
  destruct (earn_data_run w s1) as (A & sa & HA & HrunE). cbv zeta in HrunE.
  fold (missing_after A) in HrunE.
  rewrite Hearn in HrunE. injection HrunE as _ Hs2.
  destruct (all_positions_unfiltered w s1) as (cb & Hcb & Hnone & Hlenb).
  pose proof Hcb as Hcb'. rewrite HA in Hcb'. simpl in Hcb'.
  destruct (targeted_discovery_budget w (missing_after A)
              (missing_after_NoDup A) sa)
    as (ct & Hct & Hall & Hper & Hlent).
  pose proof (missing_after_length A) as Hmiss.
  exists spot_data, s1, cb, ct.
  split; [exact Hspot|]. split; [exact Hs1|]. split; [exact Hcb|].
  split; [rewrite Hs2, Hct, Hcb', Hs1; now rewrite <- app_assoc|].
  split; [exact Hnone|]. split; [exact Hlenb|].
  split; [|split; [exact Hper|split]].
  - eapply List.Forall_impl; [|exact Hall].
    intros call (a & Ha & Hin). exists a. split; [exact Ha|].
    now apply (missing_after_known A).
  - change (length known_assets) with 14. lia.
  - rewrite length_app. lia.
Qed.
